(** * autoprof: profile-bundle collector, size-limit trigger, linked buffer
      and periodic scheduler.

    A shallow embedding of the Go packages [autoprof] (collector.go,
    writer.go) and [autoprof/periodic] (llbuf.go, periodic.go). Effects on
    the zip archive and on the runtime profilers are recorded in an explicit
    world state threaded through every call; contexts and the timing of a
    capture are not modelled, what a capture delivers is a parameter. *)

From stdpp Require Import gmap strings list sorting.
From Stdlib Require Import ZArith Lia Ascii.

Local Open Scope Z_scope.

(** ** Common data *)

(** Go's [error]: [None] is the nil error. *)
Definition error := string.

(** A byte slice. *)
Abbreviation bytes := (list Byte.byte).

Definition MaxInt64 : Z := 2 ^ 63 - 1.

(** Two's complement wrap-around of int64 arithmetic. *)
Definition wrap64 (z : Z) : Z := (z + 2 ^ 63) mod 2 ^ 64 - 2 ^ 63.

(** [len(p)] as a Go int. *)
Definition len {A} (p : list A) : Z := Z.of_nat (length p).

(** The [Write] method of an [io.Writer], [Write(p) (n int, err error)],
    acting on an ambient state [S]. *)
Definition Writer (S : Type) : Type := bytes → S → S * (Z * option error).

(** ** The size-limit trigger (collector.go) *)

Module limitTriggerWriter.

Record t (S : Type) : Type := mk {
  wr : Writer S;
  fn : option (S → S);
  remaining : Z
}.
Arguments mk {S} _ _ _.
Arguments wr {S} _.
Arguments fn {S} _.
Arguments remaining {S} _.

(** [func (lw *limitTriggerWriter) Write(p []byte) (int, error)]. The
    receiver is mutated, so the updated receiver is returned as well. *)
Definition Write {S} (lw : t S) (p : bytes) (s : S) : t S * S * (Z * option error) :=
  let '(s1, (n, err)) := wr lw p s in
  let rem := wrap64 (remaining lw - n) in
  match fn lw with
  | Some f =>
      if bool_decide (rem ≤ 0)
      then (mk (wr lw) None rem, f s1, (n, err))
      else (mk (wr lw) (fn lw) rem, s1, (n, err))
  | None => (mk (wr lw) (fn lw) rem, s1, (n, err))
  end.

(** A sequence of [Write] calls on the decorator, collecting each result. *)
Fixpoint Writes {S} (lw : t S) (ps : list bytes) (s : S)
  : t S * S * list (Z * option error) :=
  match ps with
  | [] => (lw, s, [])
  | p :: ps' =>
      let '(lw1, s1, r) := Write lw p s in
      let '(lw2, s2, rs) := Writes lw1 ps' s1 in
      (lw2, s2, r :: rs)
  end.

(** The same sequence of calls made directly on a writer. *)
Fixpoint direct {S} (w : Writer S) (ps : list bytes) (s : S)
  : S * list (Z * option error) :=
  match ps with
  | [] => (s, [])
  | p :: ps' =>
      let '(s1, r) := w p s in
      let '(s2, rs) := direct w ps' s1 in
      (s2, r :: rs)
  end.

(** Number of bytes the wrapped writer reported as written. *)
Definition forwarded (rs : list (Z * option error)) : Z :=
  foldr (λ r acc, r.1 + acc) 0 rs.

(** The [io.Writer] contract: [0 <= n <= len(p)]. *)
Definition obeys_contract {S} (w : Writer S) : Prop :=
  ∀ p s, 0 ≤ (w p s).2.1 ≤ len p.

(** Instrumentation used to count callback invocations: the state is paired
    with a counter that only the callback touches. *)
Definition lift {S} (w : Writer S) : Writer (S * nat) :=
  λ p sc, let '(s1, r) := w p sc.1 in ((s1, sc.2), r).

Definition tick {S} (sc : S * nat) : S * nat := (sc.1, Datatypes.S sc.2).

(** The decorator as [addTimeBasedProfile] builds it, over the instrumented
    state. *)
Definition armed {S} (w : Writer S) (targetSize : Z) : t (S * nat) :=
  mk (lift w) (Some tick) targetSize.

(** A writer appending to an in-memory buffer that holds at most [cap]
    bytes; a write that does not fit is cut short and reports an error. *)
Definition bufWriter (cap : nat) : Writer bytes :=
  λ p s,
    let room := (cap - length s)%nat in
    if bool_decide (length p ≤ room)%nat
    then (s ++ p, (len p, None))
    else (s ++ take room p, (Z.of_nat room, Some "short write")).

End limitTriggerWriter.

(** ** The outside world of a collector run *)

(** The two runtime capture mechanisms: the CPU profiler of runtime/pprof
    and the execution tracer of runtime/trace. *)
Inductive capture : Type := CPU | Trace.

(** Effects a run has on its collaborators, in the order they happen. *)
Inductive event : Type :=
| EvHeader (name : string) (err : option error)
    (* writeFileHeader(name) was called and returned err *)
| EvWriteTo (name : string)
    (* source.WriteTo(ctx, w) was called for the entry name *)
| EvWrite (p : bytes) (n : Z) (err : option error)
    (* Write(p) on the current entry's writer returned (n, err) *)
| EvStart (k : capture) (err : option error)
    (* pprof.StartCPUProfile or trace.Start returned err *)
| EvCancel
    (* the size-limit trigger called cancel() *)
| EvStop (k : capture)
    (* pprof.StopCPUProfile or trace.Stop was called *)
| EvClose (err : option error)
    (* pw.Close() returned err *)
| EvPump (err : option error)
    (* the pump's io.Copy returned err *)
| EvFinish (err : option error).
    (* finish() was called and returned err *)

(** The state outside the collector: what has happened so far, and whether
    the process-wide CPU profiler and execution tracer are running. *)
Record World : Type := mkWorld {
  history : list event;
  cpuOn : bool;
  traceOn : bool
}.

Definition emit (e : event) (w : World) : World :=
  mkWorld (history w ++ [e]) (cpuOn w) (traceOn w).

(** What a [WriteTo func(ctx context.Context, w io.Writer) error] does with
    the writer it is handed: a series of [Write] calls, each of whose result
    it may inspect, and then the error it returns. *)
Inductive script : Type :=
| Return (err : option error)
| Put (p : bytes) (k : Z * option error → script).

(** [type DataSource struct { WriteTo func(...) error }]; a nil func is
    [None]. A [*DataSource] is an [option DataSource]. *)
Record DataSource : Type := mkDataSource { WriteTo : option script }.

(** Modelled from the spec: the declaration of [ArchiveMeta] (meta.go) is
    not among the sources; section 6 lists its fields. *)
Record ArchiveMeta : Type := mkArchiveMeta {
  Main : string;
  Revision : string;
  GoVersion : string;
  Hostname : string;
  ProcID : string;
  InitTime : string;
  CaptureTime : string
}.

Record ArchiveOptions : Type := mkArchiveOptions {
  CPUProfileDuration : Z;
  CPUProfileByteTarget : Z;
  ExecutionTraceDuration : Z;
  ExecutionTraceByteTarget : Z;
  CustomDataSources : gmap string (option DataSource)
}.

(** The collaborators of the package, as functions of what happened so
    far where their answer may depend on it. *)
Record Env : Type := mkEnv {
  (* archive/zip: Writer.CreateHeader, the entry writer's Write, Writer.Close *)
  zip_CreateHeader : list event → string → option error;
  zip_Write : list event → bytes → Z * option error;
  zip_Close : list event → option error;
  (* net/url *)
  url_PathEscape : string → string;
  (* encoding/json, fmt, expvar *)
  json_Marshal : ArchiveMeta → bytes + error;
  fmt_q : string → string;
  expvar_Do : list (string * string);
  (* runtime/pprof: the names of pprof.Profiles() and Profile.WriteTo(w, 0) *)
  pprof_Profiles : list string;
  pprof_WriteTo : string → script;
  (* what a capture sends through the pipe before the pump sees EOF, what
     pw.Close() returns, and what StopCPUProfile leaves in a bytes.Buffer *)
  pipe_Read : list event → list bytes;
  pipe_Close : list event → option error;
  cpu_Flush : list event → bytes
}.

(** [pprof.StartCPUProfile(w)]: fails when CPU profiling is already on. *)
Definition pprof_StartCPUProfile (w : World) : World * option error :=
  if cpuOn w
  then let err := Some "cpu profiling already in use" in
       (emit (EvStart CPU err) w, err)
  else (emit (EvStart CPU None) (mkWorld (history w) true (traceOn w)), None).

(** [pprof.StopCPUProfile()]: stops the current CPU profile, if any. *)
Definition pprof_StopCPUProfile (w : World) : World :=
  emit (EvStop CPU) (mkWorld (history w) false (traceOn w)).

(** [trace.Start(w)]: fails when tracing is already enabled. *)
Definition trace_Start (w : World) : World * option error :=
  if traceOn w
  then let err := Some "tracing is already enabled" in
       (emit (EvStart Trace err) w, err)
  else (emit (EvStart Trace None) (mkWorld (history w) (cpuOn w) true), None).

(** [trace.Stop()]: stops the current tracing, if any. *)
Definition trace_Stop (w : World) : World :=
  emit (EvStop Trace) (mkWorld (history w) (cpuOn w) false).

(** [cancel()] of the capture's context, as the size-limit trigger calls it. *)
Definition cancel (w : World) : World := emit EvCancel w.

(** [sort.Strings]: increasing byte-wise order. *)
Definition sort_Strings (l : list string) : list string := merge_sort String.le l.

(** A writer with no state of its own, seen as an object with a [Write]
    method. *)
Definition plain_Write {S} (wr : Writer S) (_ : unit) (p : bytes) (s : S)
  : unit * S * (Z * option error) :=
  let '(s1, r) := wr p s in (tt, s1, r).

(** [io.Copy(dst, src)] for a source that delivers the chunks [src] and
    then EOF; only the error is returned. *)
Fixpoint io_Copy {S W} (Write : W → bytes → S → W * S * (Z * option error))
    (dst : W) (src : list bytes) (s : S) : S * option error :=
  match src with
  | [] => (s, None)
  | p :: rest =>
      if bool_decide (len p = 0) then io_Copy Write dst rest s else
      let '(dst1, s1, (nw, ew)) := Write dst p s in
      let ew :=
        if bool_decide (nw < 0 ∨ len p < nw)
        then match ew with None => Some "invalid write result" | Some _ => ew end
        else ew in
      match ew with
      | Some e => (s1, Some e)
      | None =>
          if bool_decide (len p = nw) then io_Copy Write dst1 rest s1
          else (s1, Some "short write")
      end
  end.

(** [io.Copy(w, buf)] for a [*bytes.Buffer] source, which hands its whole
    content to one [Write] unless it is empty. (A writer reporting more
    bytes than it was given makes the Go code panic; the entry writer of
    this model never does.) *)
Definition io_Copy_Buffer {S} (wr : Writer S) (buf : bytes) (s : S) : S * option error :=
  if bool_decide (0 < len buf) then
    let '(s1, (m, e)) := wr buf s in
    match e with
    | Some _ => (s1, e)
    | None => if bool_decide (m = len buf) then (s1, None) else (s1, Some "short write")
    end
  else (s, None).

(** ** Data sources (writer.go) *)

(** Running a [WriteTo] body against a writer. *)
Fixpoint run_script (body : script) (wr : Writer World) (w : World) : World * option error :=
  match body with
  | Return err => (w, err)
  | Put p k => let '(w1, r) := wr p w in run_script (k r) wr w1
  end.

Definition errSource (err : error) : DataSource :=
  mkDataSource (Some (Return (Some err))).

Definition metaSource (env : Env) (meta : ArchiveMeta) : DataSource :=
  match json_Marshal env meta with
  | inr err => errSource err
  | inl buf =>
      mkDataSource (Some (Put buf (λ r,
        match r.2 with
        | Some err => Return (Some err)
        | None => Return None
        end)))
  end.

(** The newline character, as a string. *)
Definition nl : string := String "010"%char "".

(** The [printf] closure of [expvarStyleSource]: prints unless an earlier
    print failed, and remembers the error. *)
Definition expvar_printf (text : string) (err : option error)
    (k : option error → script) : script :=
  match err with
  | None => Put (String.list_byte_of_string text) (λ r, k r.2)
  | Some _ => k err
  end.

Fixpoint expvar_each (q : string → string) (prefix : string)
    (kvs : list (string * string)) (err : option error) : script :=
  match kvs with
  | [] => expvar_printf (nl +:+ "}" +:+ nl) err (λ _, Return None)
  | kv :: kvs' =>
      expvar_printf (prefix +:+ q kv.1 +:+ ": " +:+ kv.2) err
        (λ err', expvar_each q ("," +:+ nl) kvs' err')
  end.

Definition expvarStyleSource (q : string → string) (do : list (string * string))
  : DataSource :=
  mkDataSource (Some
    (expvar_printf ("{" +:+ nl) None (λ err, expvar_each q "" do err))).

Definition expvarSource (env : Env) : DataSource :=
  expvarStyleSource (fmt_q env) (expvar_Do env).

Definition pprofSource (env : Env) (profile : string) : DataSource :=
  mkDataSource (Some (pprof_WriteTo env profile)).

(** ** The collector (collector.go) *)

Module Collector.

Record t : Type := mk {
  meta : ArchiveMeta;
  opt : ArchiveOptions;
  writeFileHeader : string → World → World * (Writer World + error);
  finish : World → World * option error;
  addErr : option error
}.

Definition set_addErr (err : option error) (c : t) : t :=
  mk (meta c) (opt c) (writeFileHeader c) (finish c) err.

(** The writer [zip.Writer.CreateHeader] returns for the entry just
    opened. The byte count it reports is kept within [0 .. len(p)]. *)
Definition zip_entry (env : Env) : Writer World :=
  λ p w,
    let r := zip_Write env (history w) p in
    let n := Z.max 0 (Z.min r.1 (len p)) in
    (emit (EvWrite p n r.2) w, (n, r.2)).

(** [NewZipCollector(w, meta, opt)]. The destination [w] and the
    [zip.Writer] over it are the [history] of the world. *)
Definition NewZipCollector (env : Env) (meta : ArchiveMeta) (opt : ArchiveOptions) : t :=
  mk meta opt
     (λ name w,
        let err := zip_CreateHeader env (history w) name in
        (emit (EvHeader name err) w,
         match err with None => inl (zip_entry env) | Some e => inr e end))
     (λ w, let err := zip_Close env (history w) in (emit (EvFinish err) w, err))
     None.

(** The collector of [NewZipCollector] once [addErr] holds [err]. *)
Definition zipped (env : Env) (meta : ArchiveMeta) (opt : ArchiveOptions)
    (err : option error) : t :=
  set_addErr err (NewZipCollector env meta opt).

(** [func (c *Collector) add(ctx, name, source)]. *)
Definition add (name : string) (source : option DataSource) (c : t) (w : World)
  : t * World :=
  match source with
  | None => (c, w)
  | Some src =>
      match WriteTo src with
      | None => (c, w)
      | Some body =>
          match addErr c with
          | Some _ => (c, w)
          | None =>
              let '(w1, r) := writeFileHeader c name w in
              match r with
              | inr err => (set_addErr (Some err) c, w1)
              | inl wr =>
                  let '(w2, err) := run_script body wr (emit (EvWriteTo name) w1) in
                  (set_addErr err c, w2)
              end
          end
      end
  end.

(** [func (c *Collector) addTimeBasedProfile(ctx, name, targetSize, start,
    stop)]. [L] holds the variables the [start] and [stop] closures
    capture. The pump's writes are recorded before the stop that ends them,
    and its completion ([wg.Wait]) after the pipe is closed. *)
Definition addTimeBasedProfile {L} (env : Env) (name : string) (targetSize : Z)
    (start : L → World → L * World * option error)
    (stop : L → World → L * World)
    (c : t) (l : L) (w : World) : L * World * option error :=
  let '(l, w, err) := start l w in
  match err with
  | Some _ => (l, w, None)
  | None =>
      let '(w, r) := writeFileHeader c name w in
      match r with
      | inr err => (l, w, Some err)
      | inl wr =>
          let '(w, copyErr) :=
            if bool_decide (0 < targetSize)
            then io_Copy limitTriggerWriter.Write
                   (limitTriggerWriter.mk wr (Some cancel) targetSize)
                   (pipe_Read env (history w)) w
            else io_Copy (plain_Write wr) tt (pipe_Read env (history w)) w in
          let '(l, w) := stop l w in
          let closeErr := pipe_Close env (history w) in
          let w := emit (EvPump copyErr) (emit (EvClose closeErr) w) in
          (l, w, match copyErr with Some _ => copyErr | None => closeErr end)
      end
  end.

(** A library function passed as [start] or [stop]: it captures no
    variable. *)
Definition plain_start {L} (f : World → World * option error) (l : L) (w : World)
  : L * World * option error :=
  let '(w, err) := f w in (l, w, err).

Definition plain_stop {L} (f : World → World) (l : L) (w : World) : L * World :=
  (l, f w).

(** [func (c *Collector) addCPUProfile(ctx, name)]. *)
Definition addCPUProfile (env : Env) (name : string) (c : t) (w : World)
  : World * option error :=
  let '(_, w, err) :=
    addTimeBasedProfile env name (CPUProfileByteTarget (opt c))
      (plain_start pprof_StartCPUProfile) (plain_stop pprof_StopCPUProfile)
      c tt w in
  (w, err).

(** The [start] closure of [addExecutionTrace] when a CPU profile is
    configured; [cpuProfile] is the captured [*bytes.Buffer]. *)
Definition addExecutionTrace_start (cpuProfile : option bytes) (w : World)
  : option bytes * World * option error :=
  let '(w, err) := pprof_StartCPUProfile w in
  let cpuProfile := match err with None => Some [] | Some _ => cpuProfile end in
  let '(w, err) := trace_Start w in
  (cpuProfile, w, err).

(** The matching [stop] closure. *)
Definition addExecutionTrace_stop (env : Env) (cpuProfile : option bytes) (w : World)
  : option bytes * World :=
  let w := trace_Stop w in
  match cpuProfile with
  | Some buf =>
      let w := pprof_StopCPUProfile w in
      (Some (buf ++ cpu_Flush env (history w)), w)
  | None => (None, w)
  end.

(** The function literal whose result is [profileErr]. *)
Definition addExecutionTrace_profileErr (profileName : string)
    (cpuProfile : option bytes) (c : t) (w : World) : World * option error :=
  match cpuProfile with
  | None => (w, None)
  | Some buf =>
      let '(w, r) := writeFileHeader c profileName w in
      match r with
      | inr err => (w, Some err)
      | inl wr => io_Copy_Buffer wr buf w
      end
  end.

(** The call [c.addTimeBasedProfile(ctx, name, ..., start, stop)] inside
    [addExecutionTrace], with the closures chosen as the code does. *)
Definition addExecutionTrace_capture (env : Env) (name : string) (c : t) (w : World)
  : option bytes * World * option error :=
  if bool_decide (0 < CPUProfileDuration (opt c))
  then addTimeBasedProfile env name (ExecutionTraceByteTarget (opt c))
         addExecutionTrace_start (addExecutionTrace_stop env) c None w
  else addTimeBasedProfile env name (ExecutionTraceByteTarget (opt c))
         (plain_start trace_Start) (plain_stop trace_Stop) c (@None bytes) w.

(** [func (c *Collector) addExecutionTrace(ctx, name, profileName)]. *)
Definition addExecutionTrace (env : Env) (name profileName : string) (c : t) (w : World)
  : World * option error :=
  let '(cpuProfile, w, traceErr) := addExecutionTrace_capture env name c w in
  let '(w, profileErr) := addExecutionTrace_profileErr profileName cpuProfile c w in
  match traceErr with
  | Some _ => (w, traceErr)
  | None => (w, profileErr)
  end.

(** The static additions of [Run], up to the test of [c.addErr]. *)
Definition Run_static (env : Env) (c : t) (w : World) : t * World :=
  let '(c, w) := add "meta" (Some (metaSource env (meta c))) c w in
  let '(c, w) := add "expvar" (Some (expvarSource env)) c w in
  let '(c, w) := add "pprof/heap" (Some (pprofSource env "heap")) c w in
  let '(c, w) :=
    foldl (λ cw name,
             if bool_decide (name ≠ "heap")
             then add ("pprof/" +:+ url_PathEscape env name)
                      (Some (pprofSource env name)) cw.1 cw.2
             else cw)
          (c, w) (pprof_Profiles env) in
  let custom := sort_Strings (map_to_list (CustomDataSources (opt c))).*1 in
  foldl (λ cw name,
           add ("custom/" +:+ url_PathEscape env name)
               (default None (CustomDataSources (opt cw.1) !! name)) cw.1 cw.2)
        (c, w) custom.

(** [func (c *Collector) Run(ctx) error]. *)
Definition Run (env : Env) (c : t) (w : World) : t * World * option error :=
  let '(c, w) := Run_static env c w in
  match addErr c with
  | Some _ => (c, w, addErr c)
  | None =>
      let '(w, err) :=
        if bool_decide (0 < CPUProfileDuration (opt c))
        then addCPUProfile env "pprof/profile" c w
        else (w, None) in
      match err with
      | Some _ => (c, w, err)
      | None =>
          let '(w, err) :=
            if bool_decide (0 < ExecutionTraceDuration (opt c))
            then addExecutionTrace env "pprof/trace" "pprof/profile-during-trace" c w
            else (w, None) in
          match err with
          | Some _ => (c, w, err)
          | None => let '(w, err) := finish c w in (c, w, err)
          end
      end
  end.

(** Whether [add] gets past its first test for a source. *)
Definition writable (source : option DataSource) : bool :=
  match source with
  | Some src => bool_decide (is_Some (WriteTo src))
  | None => false
  end.

(** The calls of [add] that [Run] makes, in order, as pairs of the entry
    name and the source. *)
Definition statics (env : Env) (meta : ArchiveMeta) (opt : ArchiveOptions)
  : list (string * option DataSource) :=
  [("meta", Some (metaSource env meta));
   ("expvar", Some (expvarSource env));
   ("pprof/heap", Some (pprofSource env "heap"))]
  ++ ((λ name, ("pprof/" +:+ url_PathEscape env name, Some (pprofSource env name)))
        <$> filter (λ name, name ≠ "heap") (pprof_Profiles env))
  ++ ((λ name, ("custom/" +:+ url_PathEscape env name,
                default None (CustomDataSources opt !! name)))
        <$> sort_Strings (map_to_list (CustomDataSources opt)).*1).

(** A series of [add] calls. *)
Definition adds (l : list (string * option DataSource)) (cw : t * World) : t * World :=
  foldl (λ cw ns, add ns.1 ns.2 cw.1 cw.2) cw l.

End Collector.

(** ** Reading a history *)

(** The names of the entries whose header was created. *)
Fixpoint entries (h : list event) : list string :=
  match h with
  | [] => []
  | EvHeader name None :: h' => name :: entries h'
  | _ :: h' => entries h'
  end.

(** How often [finish] was called. *)
Fixpoint finishes (h : list event) : nat :=
  match h with
  | [] => 0
  | EvFinish _ :: h' => S (finishes h')
  | _ :: h' => finishes h'
  end.

(** The error of the pump's copy, if a pump ran and its copy failed. *)
Fixpoint copy_error (h : list event) : option error :=
  match h with
  | [] => None
  | EvPump (Some e) :: _ => Some e
  | _ :: h' => copy_error h'
  end.

(** The error of closing the pipe, if it was closed and that failed. *)
Fixpoint close_error (h : list event) : option error :=
  match h with
  | [] => None
  | EvClose (Some e) :: _ => Some e
  | _ :: h' => close_error h'
  end.

(** The events of [w'] that came after those of [w]. *)
Definition since (w w' : World) : list event :=
  drop (length (history w)) (history w').

(** Events that neither open an entry nor finish the archive. *)
Definition quiet (e : event) : Prop :=
  match e with
  | EvHeader _ _ | EvFinish _ => False
  | _ => True
  end.

(** The world after further events, with the profilers as they were. *)
Definition grow (w : World) (d : list event) : World :=
  mkWorld (history w ++ d) (cpuOn w) (traceOn w).

(** ** What the collector's histories are read against *)

(** The entries of the static part of a run, for a given list of custom
    names. *)
Definition static_entries (env : Env) (customs : list string) : list string :=
  ["meta"; "expvar"; "pprof/heap"]
  ++ ((λ name, "pprof/" +:+ url_PathEscape env name)
        <$> filter (λ name, name ≠ "heap") (pprof_Profiles env))
  ++ ((λ name, "custom/" +:+ url_PathEscape env name) <$> customs).

(** A capture is requested by a positive duration, and runs if its
    mechanism is free when it is started. *)
Definition cpu_ran (opt : ArchiveOptions) (w : World) : bool :=
  bool_decide (0 < CPUProfileDuration opt) && negb (cpuOn w).

Definition trace_ran (opt : ArchiveOptions) (w : World) : bool :=
  bool_decide (0 < ExecutionTraceDuration opt) && negb (traceOn w).

(** The entries of the captures: the CPU profile, the trace, and the CPU
    profile taken during the trace if both ran. *)
Definition capture_entries (opt : ArchiveOptions) (w : World) : list string :=
  (if cpu_ran opt w then ["pprof/profile"] else [])
  ++ (if trace_ran opt w then ["pprof/trace"] else [])
  ++ (if cpu_ran opt w && trace_ran opt w then ["pprof/profile-during-trace"] else []).

(** The entries of the captures as the code creates them: the CPU profile
    taken during the trace depends on the CPU capture only. *)
Definition captured (opt : ArchiveOptions) (w : World) : list string :=
  (if cpu_ran opt w then ["pprof/profile"] else [])
  ++ (if bool_decide (0 < ExecutionTraceDuration opt)
      then (if traceOn w then [] else ["pprof/trace"])
           ++ (if cpu_ran opt w then ["pprof/profile-during-trace"] else [])
      else []).

(** The names of [CustomDataSources], as [Run] sorts them. *)
Definition custom_names (opt : ArchiveOptions) : list string :=
  sort_Strings (map_to_list (CustomDataSources opt)).*1.

(** Those of them bound to a source [add] does not pass over. *)
Definition custom_written (opt : ArchiveOptions) : list string :=
  filter (λ name, Collector.writable (default None (CustomDataSources opt !! name)) = true)
         (custom_names opt).

(** The trace capture is refused although the CPU capture wrapping it has
    been started. *)
Definition trace_refused_under_profile (opt : ArchiveOptions) (w : World) : Prop :=
  0 < CPUProfileDuration opt ∧ 0 < ExecutionTraceDuration opt ∧
  cpuOn w = false ∧ traceOn w = true.

(** The order of entries as first stated: an entry for every name of
    [CustomDataSources]. *)
Definition entries_in_stated_order (env : Env) (meta : ArchiveMeta)
    (opt : ArchiveOptions) (w : World) : Prop :=
  let r := Collector.Run env (Collector.NewZipCollector env meta opt) w in
  r.2 = None →
  entries (since w r.1.2) =
    static_entries env (custom_names opt) ++ capture_entries opt w.

(** Finalization as first stated: [finish] is called although a static
    source failed. *)
Definition finalized_after_static_failure (env : Env) (meta : ArchiveMeta)
    (opt : ArchiveOptions) (w : World) : Prop :=
  let c0 := Collector.NewZipCollector env meta opt in
  let r := Collector.Run env c0 w in
  Collector.addErr (Collector.Run_static env c0 w).1 ≠ None →
  r.2 ≠ None ∧ (0 < finishes (since w r.1.2))%nat.

(** The error of a capture as first stated: nil if [start] fails, and
    otherwise the copy error, else the close error, else nil. *)
Definition reports_copy_then_close_error {L} (env : Env) (name : string)
    (targetSize : Z) (start : L → World → L * World * option error)
    (stop : L → World → L * World) (c : Collector.t) (l : L) (w : World) : Prop :=
  let r := Collector.addTimeBasedProfile env name targetSize start stop c l w in
  match (start l w).2 with
  | Some _ => r.2 = None ∧ r.1.2 = (start l w).1.2
  | None =>
      r.2 = match copy_error (since w r.1.2) with
            | Some e => Some e
            | None => close_error (since w r.1.2)
            end
  end.

(** ** Sample collaborators *)

(** [url.PathEscape] of the Go library: letters, digits and
    [-_.~$&+:=@] are kept, every other byte becomes [%XX]. *)
Definition shouldEscape (c : ascii) : bool :=
  let n := N_of_ascii c in
  if ((97 <=? n) && (n <=? 122) || (65 <=? n) && (n <=? 90)
      || (48 <=? n) && (n <=? 57))%N
  then false
  else match c with
       | "-" | "_" | "." | "~" | "$" | "&" | "+" | ":" | "=" | "@" => false
       | _ => true
       end%char.

Definition upperhex (n : N) : ascii :=
  match String.get (N.to_nat n) "0123456789ABCDEF" with
  | Some c => c
  | None => "0"%char
  end.

Fixpoint PathEscape (s : string) : string :=
  match s with
  | EmptyString => EmptyString
  | String c s' =>
      if shouldEscape c
      then String "%" (String (upperhex (N_of_ascii c / 16))
             (String (upperhex (N_of_ascii c `mod` 16)) (PathEscape s')))
      else String c (PathEscape s')
  end.

(** Collaborators that never fail, but for the header of the entries
    named in [bad] and for the metadata if [marshal] is an error. Three
    profiles are registered; every capture delivers two chunks. *)
Definition sample_env (bad : list string) (marshal : bytes + error) : Env :=
  mkEnv
    (λ _ name, if bool_decide (name ∈ bad) then Some "zip: write error" else None)
    (λ _ p, (len p, None))
    (λ _, None)
    PathEscape
    (λ _, marshal)
    (λ s, s)
    [("cmdline", "[]")]
    ["goroutine"; "heap"; "threadcreate"]
    (λ _, Put (String.list_byte_of_string "profile") (λ r, Return r.2))
    (λ _, [String.list_byte_of_string "abc"; String.list_byte_of_string "de"])
    (λ _, None)
    (λ _, String.list_byte_of_string "cpu").

Definition sample_meta : ArchiveMeta :=
  mkArchiveMeta "app" "r1" "go1.19" "host" "p1" "t0" "t1".

Definition sample_opt (cpu trace : Z) (custom : gmap string (option DataSource))
  : ArchiveOptions :=
  mkArchiveOptions cpu 0 trace 0 custom.

(** A world in which nothing has happened and no capture is active. *)
Definition idle : World := mkWorld [] false false.

(** Nothing fails. *)
Definition ok_env : Env := sample_env [] (inl (String.list_byte_of_string "{}")).

(** The metadata cannot be serialised. *)
Definition meta_fails_env : Env := sample_env [] (inr "json: unsupported value").

(** The header of the CPU profile's entry cannot be created. *)
Definition header_fails_env : Env :=
  sample_env ["pprof/profile"] (inl (String.list_byte_of_string "{}")).

(** No capture, no custom source. *)
Definition no_opt : ArchiveOptions := sample_opt 0 0 ∅.

(** No capture, and one custom source whose [WriteTo] is nil. *)
Definition no_WriteTo_opt : ArchiveOptions :=
  sample_opt 0 0 {[ "a" := Some (mkDataSource None) ]}.

(** Both captures for a second each, a custom source that writes nothing
    and a custom name bound to a nil source. *)
Definition both_opt : ArchiveOptions :=
  sample_opt 1000000000 1000000000
    {[ "b" := None; "a" := Some (mkDataSource (Some (Return None))) ]}.

(** ** The linked-list buffer (periodic/llbuf.go) *)

Module linkedListBuffer.

(** A [*bufferLink]: an address in the store of links; nil is [None]. *)
Abbreviation loc := nat.

(** [body] is a slice: its elements, and its capacity counted from its
    first element. *)
Record bufferLink : Type := mkLink {
  next : option loc;
  body : bytes;
  body_cap : nat
}.

(** The store holding every link allocated so far, by address. *)
Abbreviation store := (list bufferLink).

Record t : Type := mk {
  Size : Z;
  head : option loc;
  tail : option loc
}.

Definition defaultSize : Z := 16 * 2 ^ 10.

(** [func (b *linkedListBuffer) newLink() *bufferLink]: allocates at the
    next free address. *)
Definition newLink (b : t) (h : store) : store * loc :=
  let size := if bool_decide (Size b ≤ 0) then defaultSize else Size b in
  (h ++ [mkLink None [] (Z.to_nat size)], length h).

(** The [for len(p) > 0] loop of [Write]. [None] is a nil dereference, or
    the iteration bound [fuel] reached. *)
Fixpoint Write_loop (fuel : nat) (b : t) (h : store) (p : bytes) : option (t * store) :=
  match p with
  | [] => Some (b, h)
  | _ :: _ =>
      match fuel with
      | O => None
      | S fuel' =>
          tl ← tail b;
          lk ← h !! tl;
          let start := length (body lk) in
          let n := ((body_cap lk - start) `min` length p)%nat in
          let h := <[tl := mkLink (next lk) (body lk ++ take n p) (body_cap lk)]> h in
          let p := drop n p in
          if bool_decide (n = 0%nat) then
            let '(h, x) := newLink b h in
            lk' ← h !! tl;
            let h := <[tl := mkLink (Some x) (body lk') (body_cap lk')]> h in
            Write_loop fuel' (mk (Size b) (head b) (Some x)) h p
          else Write_loop fuel' b h p
      end
  end.

(** [func (b *linkedListBuffer) Write(p []byte) (int, error)]. The loop
    runs at most twice per byte of [p]. *)
Definition Write (b : t) (p : bytes) (h : store) : option (t * store * (Z * option error)) :=
  let l := len p in
  let '(b, h) :=
    if bool_decide (head b = None ∧ 0 < l)
    then let '(h, x) := newLink b h in (mk (Size b) (Some x) (Some x), h)
    else (b, h) in
  '(b, h) ← Write_loop (2 * length p)%nat b h p;
  Some (b, h, (l, None)).

(** [func (b *linkedListBuffer) Read(p []byte) (int, error)], for a [p] of
    length [k]; the bytes copied into [p] are returned. *)
Definition Read (b : t) (k : nat) (h : store) : option (t * store * (bytes * option error)) :=
  match head b with
  | None => Some (b, h, ([], Some "EOF"))
  | Some hd =>
      lk ← h !! hd;
      let n := (k `min` length (body lk))%nat in
      let lk' := mkLink (next lk) (drop n (body lk)) (body_cap lk - n)%nat in
      let h := <[hd := lk']> h in
      let b := if bool_decide (length (body lk') = 0%nat)
               then mk (Size b) (next lk') (tail b) else b in
      Some (b, h, (take n (body lk), None))
  end.

(** A sequence of [Write] calls. *)
Fixpoint Writes (b : t) (ps : list bytes) (h : store) : option (t * store) :=
  match ps with
  | [] => Some (b, h)
  | p :: ps' => '(b, h, _) ← Write b p h; Writes b ps' h
  end.

(** A sequence of [Read] calls with buffers of the lengths [ks], keeping
    the bytes each call returned. *)
Fixpoint Reads (b : t) (ks : list nat) (h : store) : option (t * store * list bytes) :=
  match ks with
  | [] => Some (b, h, [])
  | k :: ks' =>
      '(b, h, r) ← Read b k h;
      '(b, h, out) ← Reads b ks' h;
      Some (b, h, r.1 :: out)
  end.

(** [&linkedListBuffer{Size: size}] with nothing allocated yet. *)
Definition new (size : Z) : t * store := (mk size None None, []).

(** Writes into a fresh buffer followed by reads: the bytes each read
    returned, and whether the buffer is drained ([head] is nil). *)
Definition written_then_read (size : Z) (ps : list bytes) (ks : list nat)
  : option (list bytes * bool) :=
  '(b, h) ← Writes (new size).1 ps (new size).2;
  '(b, h, out) ← Reads b ks h;
  Some (out, bool_decide (head b = None)).

(** The links met by following [next] from [from] until [to], each with
    its address. *)
Fixpoint seg (h : store) (from : option loc) (lks : list (loc * bufferLink))
    (to : option loc) : Prop :=
  match lks with
  | [] => from = to
  | x :: rest => from = Some x.1 ∧ h !! x.1 = Some x.2 ∧ seg h (next x.2) rest to
  end.

(** The bytes held by a chain of links. *)
Definition contents (lks : list (loc * bufferLink)) : bytes :=
  concat ((λ x, body x.2) <$> lks).

(** A link holds bytes, and no more than its capacity. *)
Definition filled (x : loc * bufferLink) : Prop :=
  body x.2 ≠ [] ∧ (length (body x.2) ≤ body_cap x.2)%nat.

(** The invariant of the buffer between calls: [lks] is the chain from
    [head] to nil, no link occurs twice, every link is [filled], and [tail]
    is the last link if there is one. *)
Definition chained (b : t) (h : store) (lks : list (loc * bufferLink)) : Prop :=
  seg h (head b) lks None ∧
  NoDup lks.*1 ∧
  Forall filled lks ∧
  (∀ pre x, lks = pre ++ [x] → tail b = Some x.1).

(** The invariant inside the loop of [Write]: the chain is [pre] followed
    by the tail link [x], which may still be empty. *)
Definition chained_open (b : t) (h : store) (pre : list (loc * bufferLink))
    (x : loc * bufferLink) : Prop :=
  seg h (head b) (pre ++ [x]) None ∧
  NoDup (pre ++ [x]).*1 ∧
  Forall filled pre ∧
  (length (body x.2) ≤ body_cap x.2)%nat ∧ (0 < body_cap x.2)%nat ∧
  tail b = Some x.1.

End linkedListBuffer.

(** ** The periodic scheduler (periodic/periodic.go) *)

Definition Second : Z := 1000000000.
Definition Minute : Z := 60 * Second.
Definition defaultProfileInterval : Z := 2 * Minute.

(** A [*rand.Rand]: an unknown sequence of raw draws and the position in
    it. A bounded draw is the raw draw reduced into its range, so every
    value of the range can come out. *)
Record Rand : Type := mkRand { raw : nat → Z; pos : nat }.

(** [func (r *Rand) Int63n(n int64) int64]; panics ([None]) if [n <= 0]. *)
Definition Int63n (n : Z) (r : Rand) : option (Z * Rand) :=
  if bool_decide (n ≤ 0) then None
  else Some (raw r (pos r) `mod` n, mkRand (raw r) (S (pos r))).

(** [func (r *Rand) Intn(n int) int]; panics ([None]) if [n <= 0]. *)
Definition Intn (n : Z) (r : Rand) : option (Z * Rand) := Int63n n r.

Module runner.

(** The field [c *Collector] only matters to [store] and is left out. *)
Record t : Type := mk {
  rng : Rand;
  nextExecTrace : Z
}.

(** [func (r *runner) options(i int) *autoprof.ArchiveOptions]. *)
Definition options (i : Z) (r : t) : option (ArchiveOptions * t) :=
  let cpu := 5 * Second in
  '(r, trace) ←
    (if bool_decide (nextExecTrace r = i) then
       '(x, g) ← Intn 100 (rng r);
       Some (mk g (wrap64 (i + 1 + x)), 1 * Second)
     else Some (r, 0));
  let '(cpu, trace) := if bool_decide (i = 0) then (0, 0) else (cpu, trace) in
  Some (mkArchiveOptions cpu 1000000 trace 10000000 ∅, r).

(** [func (r *runner) delay(ctx, i int)]: the duration the timer is set
    to. The wait itself is not modelled. *)
Definition delay (i : Z) (r : t) : option (Z * t) :=
  let max := defaultProfileInterval in
  let maxTrim := if bool_decide (0 < i) then max `quot` 5 else max in
  '(trim, g) ← Int63n maxTrim (rng r);
  Some (max - trim, mk g (nextExecTrace r)).

End runner.

(** The loop of [func (c *Collector) Run(ctx)] of the periodic package,
    for [n] iterations from iteration [i], as far as the runner goes: the
    context is not done and [store] returns nil, and neither touches the
    generator or [nextExecTrace]. Each iteration gives the duration its
    timer is set to and the options it hands to [store]. *)
Fixpoint iterations (n : nat) (i : Z) (r : runner.t)
  : option (list (Z * ArchiveOptions) * runner.t) :=
  match n with
  | O => Some ([], r)
  | S n' =>
      '(d, r) ← runner.delay i r;
      '(opts, r) ← runner.options i r;
      '(l, r) ← iterations n' (wrap64 (i + 1)) r;
      Some ((d, opts) :: l, r)
  end.

(** The runner [Run] starts with: a seeded generator and a zero
    [nextExecTrace]. *)
Definition new_runner (g : Rand) : runner.t := runner.mk g 0.

(** [func s3Key(m *autoprof.ArchiveMeta) string]. *)
Definition s3Key (env : Env) (m : ArchiveMeta) : string :=
  "pprof/" +:+ url_PathEscape env (Main m) +:+ "/" +:+
  url_PathEscape env (Hostname m) +:+ "/" +:+
  url_PathEscape env (ProcID m) +:+ "/" +:+
  url_PathEscape env (CaptureTime m).

(** Whether a string holds a slash. *)
Fixpoint has_slash (s : string) : bool :=
  match s with
  | EmptyString => false
  | String c s' => if Ascii.eqb c "/" then true else has_slash s'
  end.

(** ** Series of calls on the linked-list buffer *)

(** One call on a buffer: [Write(p)], or [Read(p)] with [len(p) = k]. *)
Inductive call : Type :=
| CallWrite (p : bytes)
| CallRead (k : nat).

(** A series of calls in any order, keeping the bytes each [Read]
    returned. *)
Fixpoint calls (b : linkedListBuffer.t) (cs : list call)
    (h : list linkedListBuffer.bufferLink)
  : option (linkedListBuffer.t * list linkedListBuffer.bufferLink * list bytes) :=
  match cs with
  | [] => Some (b, h, [])
  | CallWrite p :: cs' =>
      '(b, h, _) ← linkedListBuffer.Write b p h;
      calls b cs' h
  | CallRead k :: cs' =>
      '(b, h, r) ← linkedListBuffer.Read b k h;
      '(b, h, out) ← calls b cs' h;
      Some (b, h, r.1 :: out)
  end.

(** The bytes a series of calls writes, in order. *)
Fixpoint written_by (cs : list call) : bytes :=
  match cs with
  | [] => []
  | CallWrite p :: cs' => p ++ written_by cs'
  | CallRead _ :: cs' => written_by cs'
  end.

(** The capacity [newLink] gives a link: [Size], or the default if [Size]
    is not positive. *)
Definition chunk_size (b : linkedListBuffer.t) : nat :=
  Z.to_nat (if bool_decide (linkedListBuffer.Size b ≤ 0)
            then linkedListBuffer.defaultSize else linkedListBuffer.Size b).

(** ** What the entries of an archive hold *)

(** The bytes the writes of a history have handed over: of each [Write],
    the part the writer took. *)
Fixpoint written (h : list event) : bytes :=
  match h with
  | [] => []
  | EvWrite p n _ :: h' => take (Z.to_nat n) p ++ written h'
  | _ :: h' => written h'
  end.

(** No event follows a write that failed. *)
Fixpoint ends_at_failed_write (h : list event) : Prop :=
  match h with
  | [] => True
  | EvWrite _ _ (Some _) :: h' => h' = []
  | _ :: h' => ends_at_failed_write h'
  end.

(** The text of an expvar page as [TestExpvarWriter] expects it: the
    variables as [key: value] with the key quoted, separated by a comma and
    a newline, between braces on lines of their own. *)
Definition expvar_page (q : string → string) (kvs : list (string * string)) : string :=
  "{" +:+ nl +:+
  String.concat ("," +:+ nl) ((λ kv, q kv.1 +:+ ": " +:+ kv.2) <$> kvs)
  +:+ nl +:+ "}" +:+ nl.

(** What [expvar_each] hands to a writer that takes everything. *)
Fixpoint expvar_rest (q : string → string) (prefix : string)
    (kvs : list (string * string)) : bytes :=
  match kvs with
  | [] => String.list_byte_of_string (nl +:+ "}" +:+ nl)
  | kv :: kvs' =>
      String.list_byte_of_string (prefix +:+ q kv.1 +:+ ": " +:+ kv.2)
      ++ expvar_rest q ("," +:+ nl) kvs'
  end.

(** How often the size-limit trigger has called [cancel]. *)
Fixpoint cancels (h : list event) : nat :=
  match h with
  | [] => 0
  | EvCancel :: h' => S (cancels h')
  | _ :: h' => cancels h'
  end.

(** ** Proof automation *)

(** Brings the history of a world built from [emit] and [grow] into the
    form of one list appended to the history it started from. *)
Ltac hist :=
  repeat first
    [ progress cbn [fst snd emit grow history cpuOn traceOn app negb andb
        trace_Stop pprof_StopCPUProfile
        Collector.addExecutionTrace_profileErr Collector.addExecutionTrace_stop
        Collector.zipped Collector.set_addErr Collector.NewZipCollector
        Collector.writeFileHeader]
    | rewrite <- app_assoc ].

(** * Properties *)

(** ** Size-limit trigger *)

Section limitTriggerWriter_facts.
Import limitTriggerWriter.
Context {S : Type} (w : Writer S).

Lemma wrap64_small z : - 2 ^ 63 ≤ z ≤ MaxInt64 → wrap64 z = z.
Proof.
  unfold wrap64, MaxInt64. intros Hz.
  rewrite Z.mod_small; lia.
Qed.

Lemma Writes_cons {T} (lw : t T) p ps s :
  Writes lw (p :: ps) s =
  let r1 := Write lw p s in
  let r2 := Writes r1.1.1 ps r1.1.2 in
  (r2.1.1, r2.1.2, r1.2 :: r2.2).
Proof.
  cbn [Writes]. destruct (Write lw p s) as [[lw1 s1] r]. cbn [fst snd].
  by destruct (Writes lw1 ps s1) as [[lw2 s2] rs].
Qed.

Lemma direct_cons {T} (v : Writer T) p ps s :
  direct v (p :: ps) s =
  let r1 := v p s in
  let r2 := direct v ps r1.1 in
  (r2.1, r1.2 :: r2.2).
Proof.
  cbn [direct]. destruct (v p s) as [s1 r]. cbn [fst snd].
  by destruct (direct v ps s1) as [s2 rs].
Qed.

Lemma Write_lift (f : option (S * nat → S * nat)) rem p s c :
  Write (mk (lift w) f rem) p (s, c) =
  let r := w p s in
  let rem' := wrap64 (rem - r.2.1) in
  match f with
  | Some g =>
      if bool_decide (rem' ≤ 0)
      then (mk (lift w) None rem', g (r.1, c), r.2)
      else (mk (lift w) f rem', (r.1, c), r.2)
  | None => (mk (lift w) f rem', (r.1, c), r.2)
  end.
Proof.
  unfold Write, lift. cbn [wr fn remaining fst snd].
  by destruct (w p s) as [s1 [n err]].
Qed.

(** Whatever the state of the trigger, the wrapped writer sees exactly the
    calls it would see without the decorator. *)
Lemma Writes_transparent (f : option (S * nat → S * nat)) rem ps s c :
  f = Some tick ∨ f = None →
  let r := Writes (mk (lift w) f rem) ps (s, c) in
  (r.1.2.1, r.2) = direct w ps s.
Proof.
  revert f rem s c. induction ps as [|p ps IH]; intros f rem s c Hf; [done|].
  cbn zeta. rewrite Writes_cons, direct_cons, Write_lift. cbn zeta.
  set (rem' := wrap64 _).
  assert (∀ f' c', f' = Some tick ∨ f' = None →
    let r2 := Writes (mk (lift w) f' rem') ps ((w p s).1, c') in
    (r2.1.2.1, (w p s).2 :: r2.2) =
    ((direct w ps (w p s).1).1, (w p s).2 :: (direct w ps (w p s).1).2)) as Hstep.
  { intros f' c' Hf'. specialize (IH f' rem' (w p s).1 c' Hf'). cbn zeta in *.
    rewrite <- IH. done. }
  destruct Hf as [-> | ->]; [case_bool_decide|]; cbn [fst snd].
  - apply (Hstep None); by right.
  - apply (Hstep (Some tick)); by left.
  - apply (Hstep None); by right.
Qed.

(** Once the callback has been cleared it is never invoked again. *)
Lemma Writes_disarmed rem ps s c :
  (Writes (mk (lift w) None rem) ps (s, c)).1.2.2 = c.
Proof.
  revert rem s c. induction ps as [|p ps IH]; intros rem s c; [done|].
  rewrite Writes_cons, Write_lift. cbn [fst snd]. apply IH.
Qed.

Lemma forwarded_nonneg ps s : obeys_contract w → 0 ≤ forwarded (direct w ps s).2.
Proof.
  intros Hw. revert s. induction ps as [|p ps IH]; intros s; [done|].
  rewrite direct_cons. cbn [fst snd forwarded foldr].
  fold (forwarded (direct w ps (w p s).1).2).
  pose proof (Hw p s). specialize (IH (w p s).1). lia.
Qed.

(** While armed with a positive budget, the callback count after a run of
    writes is one exactly when the budget has been used up. *)
Lemma Writes_armed_count rem ps s c :
  0 < rem ≤ MaxInt64 → obeys_contract w → Forall (λ p, len p ≤ MaxInt64) ps →
  (Writes (mk (lift w) (Some tick) rem) ps (s, c)).1.2.2 =
  (c + if bool_decide (rem ≤ forwarded (direct w ps s).2)%Z then 1 else 0)%nat.
Proof.
  intros Hrem Hw Hps. revert rem s c Hrem.
  induction Hps as [|p ps Hp Hps IH]; intros rem s c Hrem.
  { cbn. rewrite bool_decide_eq_false_2; [lia|]. cbn. lia. }
  rewrite Writes_cons, direct_cons, Write_lift. cbn zeta.
  pose proof (Hw p s) as Hn.
  pose proof (forwarded_nonneg ps (w p s).1 Hw) as Hnn.
  rewrite (wrap64_small (rem - _)) by (unfold MaxInt64 in *; lia).
  cbn [fst snd forwarded foldr]. fold (forwarded (direct w ps (w p s).1).2).
  case_bool_decide as Hfire; cbn [fst snd].
  - unfold tick. cbn [fst snd]. rewrite Writes_disarmed.
    rewrite bool_decide_eq_true_2 by lia. lia.
  - rewrite IH by lia. do 2 case_bool_decide; lia.
Qed.

(** C4. Through a size-limit trigger armed with a positive budget, every
    write reaches the wrapped writer unchanged and in order, with the same
    results as without the decorator; and after any number of writes the
    callback has been invoked once if the bytes written so far reach the
    budget and not at all otherwise, so it fires at the first such write
    and never again, while later writes are still forwarded. *)
Theorem limitTriggerWriter_forwards_and_fires_once
    (targetSize : Z) (ps : list bytes) (s : S) :
  0 < targetSize ≤ MaxInt64 →
  obeys_contract w →
  Forall (λ p, len p ≤ MaxInt64) ps →
  let run k := Writes (armed w targetSize) (take k ps) (s, 0%nat) in
  ((run (length ps)).1.2.1, (run (length ps)).2) = direct w ps s ∧
  ∀ k, (run k).1.2.2 =
       if bool_decide (targetSize ≤ forwarded (direct w (take k ps) s).2)
       then 1%nat else 0%nat.
Proof.
  intros Ht Hw Hps run. subst run. cbn beta. split.
  - rewrite firstn_all. apply Writes_transparent. by left.
  - intros k. unfold armed. rewrite Writes_armed_count; [done..|].
    by apply Forall_take.
Qed.

End limitTriggerWriter_facts.

Lemma bufWriter_obeys_contract cap :
  limitTriggerWriter.obeys_contract (limitTriggerWriter.bufWriter cap).
Proof.
  intros p s. unfold limitTriggerWriter.bufWriter, len.
  case_bool_decide; cbn; lia.
Qed.

(** ** The collector: static additions *)

Section Collector_static_facts.
Import Collector.
Context (env : Env).

Lemma set_addErr_set_addErr e e' c : set_addErr e (set_addErr e' c) = set_addErr e c.
Proof. done. Qed.

Lemma set_addErr_id c : set_addErr (addErr c) c = c.
Proof. by destruct c. Qed.

(** [add] only ever changes the [addErr] field of the collector. *)
Lemma add_collector name source c w :
  (add name source c w).1 = set_addErr (addErr (add name source c w).1) c.
Proof.
  unfold add. destruct source as [[[body|]]|]; cbn; try by rewrite set_addErr_id.
  destruct (addErr c) eqn:He; [cbn; by rewrite set_addErr_id|].
  destruct (writeFileHeader c name w) as [w1 [wr|err]]; [|done].
  by destruct (run_script body wr _).
Qed.

Lemma add_not_writable name source c w :
  writable source = false → add name source c w = (c, w).
Proof.
  by destruct source as [[[body|]]|].
Qed.

Lemma add_after_error name source c w :
  addErr c ≠ None → add name source c w = (c, w).
Proof.
  intros H. unfold add. destruct source as [[[body|]]|]; try done.
  cbn. by destruct (addErr c).
Qed.

Lemma adds_after_error l c w : addErr c ≠ None → adds l (c, w) = (c, w).
Proof.
  intros H. induction l as [|[n s] l IH]; [done|].
  unfold adds in *. cbn. by rewrite add_after_error.
Qed.

Lemma adds_app l1 l2 cw : adds (l1 ++ l2) cw = adds l2 (adds l1 cw).
Proof. apply foldl_app. Qed.

Lemma adds_collector l c w :
  (adds l (c, w)).1 = set_addErr (addErr (adds l (c, w)).1) c.
Proof.
  revert c w. induction l as [|[n s] l IH]; intros c w.
  { cbn. by rewrite set_addErr_id. }
  unfold adds in *. cbn [foldl fst snd].
  destruct (add n s c w) as [c1 w1] eqn:Ha.
  rewrite IH. pose proof (add_collector n s c w) as Hc. rewrite Ha in Hc. cbn in Hc.
  rewrite Hc at 2. by rewrite set_addErr_set_addErr.
Qed.

(** The static part of [Run] is the series of [add] calls listed by
    [statics]. *)
Lemma Run_static_adds c w :
  Run_static env c w = adds (statics env (meta c) (opt c)) (c, w).
Proof.
  unfold Run_static, statics. rewrite !adds_app.
  unfold adds at 3. cbn [foldl fst snd].
  destruct (add "meta" _ c w) as [c1 w1] eqn:H1. cbn [fst snd].
  destruct (add "expvar" _ c1 w1) as [c2 w2] eqn:H2. cbn [fst snd].
  destruct (add "pprof/heap" _ c2 w2) as [c3 w3] eqn:H3.
  assert (opt c3 = opt c) as Hopt.
  { pose proof (add_collector "meta" (Some (metaSource env (meta c))) c w) as E1.
    pose proof (add_collector "expvar" (Some (expvarSource env)) c1 w1) as E2.
    pose proof (add_collector "pprof/heap" (Some (pprofSource env "heap")) c2 w2) as E3.
    rewrite H1 in E1. rewrite H2 in E2. rewrite H3 in E3. cbn in *.
    rewrite E3, E2, E1. done. }
  assert (∀ l cw,
    foldl (λ cw name,
             if bool_decide (name ≠ "heap")
             then add ("pprof/" +:+ url_PathEscape env name)
                      (Some (pprofSource env name)) cw.1 cw.2
             else cw) cw l =
    adds ((λ name, ("pprof/" +:+ url_PathEscape env name, Some (pprofSource env name)))
            <$> filter (λ name, name ≠ "heap") l) cw) as Hp.
  { induction l as [|n l IH]; intros cw; [done|].
    cbn [foldl]. rewrite filter_cons. case_bool_decide as Hn.
    - rewrite decide_True by done. rewrite fmap_cons. unfold adds at 1. cbn [foldl fst snd].
      rewrite IH. reflexivity.
    - rewrite decide_False by (by intros []). apply IH. }
  rewrite Hp.
  destruct (adds _ (c3, w3)) as [c4 w4] eqn:H4.
  assert (opt c4 = opt c) as Hopt4.
  { pose proof (adds_collector
      ((λ name, ("pprof/" +:+ url_PathEscape env name, Some (pprofSource env name)))
         <$> filter (λ name, name ≠ "heap") (pprof_Profiles env)) c3 w3) as E.
    rewrite H4 in E. cbn in E. rewrite E. done. }
  rewrite Hopt4.
  generalize (sort_Strings (map_to_list (CustomDataSources (opt c))).*1).
  intros l. clear H4. revert c4 w4 Hopt4. induction l as [|n l IH]; intros c4 w4 Hopt4; [done|].
  cbn [foldl fst snd fmap list_fmap]. unfold adds. cbn [foldl fst snd].
  rewrite Hopt4.
  destruct (add _ _ c4 w4) as [c5 w5] eqn:H5.
  apply (IH c5 w5).
  pose proof (add_collector ("custom/" +:+ url_PathEscape env n)
                (default None (CustomDataSources (opt c) !! n)) c4 w4) as E.
  rewrite H5 in E. cbn in E. rewrite E. done.
Qed.

(** C10. A call of [add] with a nil source, or with a source whose
    [WriteTo] is nil, changes neither the collector nor the world, whatever
    [addErr] holds: no header, no bytes, no error. Hence a series of [add]
    calls, such as the loop over [CustomDataSources], is the series without
    those sources, which are left out of the bundle without failing it. *)
Theorem add_nil_source_is_noop :
  ∀ (name : string) (c : t) (w : World) (l : list (string * option DataSource)),
    add name None c w = (c, w) ∧
    add name (Some (mkDataSource None)) c w = (c, w) ∧
    adds l (c, w) = adds (filter (λ ns, writable ns.2 = true) l) (c, w).
Proof.
  intros name c w l. split_and!; [done..|].
  revert c w. induction l as [|[n s] l IH]; intros c w; [done|].
  rewrite filter_cons. cbn [snd]. destruct (writable s) eqn:Hs.
  - rewrite decide_True by done. unfold adds in *. cbn [foldl fst snd].
    destruct (add n s c w). apply IH.
  - rewrite decide_False by done. unfold adds in *. cbn [foldl fst snd].
    rewrite add_not_writable by done. apply IH.
Qed.

(** C3. If the [add] call for some static source sets [addErr] for the
    first time, then every later [add] call of the run leaves collector and
    world as they are (no header is created, no [WriteTo] called), the
    static part ends in that very state, and [Run] returns that first error
    from it with nothing further done: no capture started, no [finish]. *)
Theorem static_failure_skips_the_rest
    (meta : ArchiveMeta) (opt : ArchiveOptions) (w : World)
    (pre post : list (string * option DataSource))
    (name : string) (source : option DataSource) (e : error) :
  let c0 := NewZipCollector env meta opt in
  let s1 := adds pre (c0, w) in
  let s2 := add name source s1.1 s1.2 in
  statics env meta opt = pre ++ (name, source) :: post →
  addErr s1.1 = None →
  addErr s2.1 = Some e →
  Forall (λ ns, add ns.1 ns.2 s2.1 s2.2 = s2) post ∧
  Run_static env c0 w = s2 ∧
  Run env c0 w = (s2, Some e).
Proof.
  intros c0 s1 s2 Hst H1 H2.
  assert (Run_static env c0 w = s2) as Hrs.
  { rewrite Run_static_adds. change (statics env _ _) with (statics env meta opt).
    rewrite Hst.
    rewrite adds_app. fold s1. unfold adds at 1. cbn [foldl fst snd]. fold s2.
    fold (adds post s2). destruct s2 as [c2 w2] eqn:Hs2.
    apply adds_after_error. cbn in H2. by rewrite H2. }
  split_and!; [|done|].
  - apply Forall_forall. intros [n s] _. cbn [fst snd].
    destruct s2 as [c2 w2]. apply add_after_error. cbn in H2. by rewrite H2.
  - unfold Run. rewrite Hrs. destruct s2 as [c2 w2]. cbn in H2. by rewrite H2.
Qed.

End Collector_static_facts.

(** ** Histories *)

Lemma grow_nil w : grow w [] = w.
Proof. destruct w. unfold grow. cbn. by rewrite app_nil_r. Qed.

Lemma grow_grow w d1 d2 : grow (grow w d1) d2 = grow w (d1 ++ d2).
Proof. unfold grow. cbn. by rewrite app_assoc. Qed.

Lemma emit_grow e w : emit e w = grow w [e].
Proof. done. Qed.

Lemma entries_app h1 h2 : entries (h1 ++ h2) = entries h1 ++ entries h2.
Proof.
  induction h1 as [|e h1 IH]; [done|].
  destruct e as [n [x|]| | | | | | | |]; cbn; by rewrite ?IH.
Qed.

Lemma finishes_app h1 h2 : finishes (h1 ++ h2) = (finishes h1 + finishes h2)%nat.
Proof.
  induction h1 as [|e h1 IH]; [done|].
  destruct e; cbn; by rewrite ?IH.
Qed.

Lemma entries_quiet d : Forall quiet d → entries d = [].
Proof. induction 1 as [|e d He Hd IH]; [done|]. by destruct e. Qed.

Lemma finishes_quiet d : Forall quiet d → finishes d = 0%nat.
Proof. induction 1 as [|e d He Hd IH]; [done|]. by destruct e. Qed.

Lemma since_app w w' d : history w' = history w ++ d → since w w' = d.
Proof. unfold since. intros ->. by rewrite drop_app_length. Qed.

(** ** The collector on a zip archive *)

Section Collector_zip_facts.
Import Collector.
Context (env : Env) (meta : ArchiveMeta) (opt : ArchiveOptions).

Local Abbreviation Z_ := (zipped env meta opt).

Lemma run_script_zip body w :
  ∃ d, (run_script body (zip_entry env) w).1 = grow w d ∧ Forall quiet d.
Proof.
  revert w. induction body as [err|p k IH]; intros w.
  - exists []. by rewrite grow_nil.
  - cbn. destruct (IH (Z.max 0 (Z.min (zip_Write env (history w) p).1 (len p)),
                        (zip_Write env (history w) p).2)
                      (emit (EvWrite p (Z.max 0 (Z.min (zip_Write env (history w) p).1 (len p)))
                                     (zip_Write env (history w) p).2) w))
      as (d & Hd & Hq).
    eexists (_ :: d). rewrite Hd, emit_grow, grow_grow. split; [done|].
    by constructor.
Qed.

(** One [add] on a zip collector: the events it causes, and what a nil
    [addErr] afterwards tells. *)
Lemma add_zip name source e w :
  ∃ e' d,
    add name source (Z_ e) w = (Z_ e', grow w d) ∧
    finishes d = 0%nat ∧
    (e' = None → e = None ∧ entries d = if writable source then [name] else []).
Proof.
  destruct (writable source) eqn:Hw; cycle 1.
  { exists e, []. rewrite add_not_writable, grow_nil by done. done. }
  destruct e as [x|].
  { exists (Some x), []. rewrite add_after_error, grow_nil by done. done. }
  destruct source as [[[body|]]|]; try done. cbn.
  destruct (zip_CreateHeader env (history w) name) as [x|] eqn:Hh.
  { exists (Some x), [EvHeader name (Some x)]. done. }
  destruct (run_script_zip body (emit (EvWriteTo name) (emit (EvHeader name None) w)))
    as (d & Hd & Hq).
  destruct (run_script body _ _) as [w2 err]. cbn in Hd. subst w2.
  exists err, (EvHeader name None :: EvWriteTo name :: d).
  rewrite !emit_grow, !grow_grow. split; [done|]. split.
  - cbn. by apply finishes_quiet.
  - intros _. split; [done|]. cbn. by rewrite entries_quiet.
Qed.

Lemma adds_zip l e w :
  ∃ e' d,
    adds l (Z_ e, w) = (Z_ e', grow w d) ∧
    finishes d = 0%nat ∧
    (e' = None → e = None ∧ entries d = (filter (λ ns, writable ns.2 = true) l).*1).
Proof.
  revert e w. induction l as [|[n s] l IH]; intros e w.
  { exists e, []. by rewrite grow_nil. }
  destruct (add_zip n s e w) as (e1 & d1 & H1 & F1 & E1).
  destruct (IH e1 (grow w d1)) as (e2 & d2 & H2 & F2 & E2).
  exists e2, (d1 ++ d2). unfold adds in *. cbn [foldl fst snd].
  rewrite H1, H2, grow_grow. split; [done|]. split.
  - rewrite finishes_app. lia.
  - intros He2. destruct (E2 He2) as [He1 Hd2]. destruct (E1 He1) as [He Hd1].
    split; [done|]. rewrite entries_app, Hd1, Hd2, filter_cons. cbn [snd].
    destruct (writable s); [by rewrite decide_True|by rewrite decide_False].
Qed.

Lemma zip_entry_grow p w :
  ∃ e, (zip_entry env p w).1 = grow w [e] ∧ quiet e.
Proof. by eexists. Qed.

(** The pump's copy through a size-limit trigger over a zip entry only
    writes and cancels. *)
Lemma io_Copy_zip_limit src (lw : limitTriggerWriter.t World) w :
  limitTriggerWriter.wr lw = zip_entry env →
  limitTriggerWriter.fn lw = Some cancel ∨ limitTriggerWriter.fn lw = None →
  ∃ d, (io_Copy limitTriggerWriter.Write lw src w).1 = grow w d ∧ Forall quiet d.
Proof.
  revert lw w. induction src as [|p src IH]; intros lw w Hwr Hfn.
  { exists []. by rewrite grow_nil. }
  cbn [io_Copy]. case_bool_decide; [by apply IH|].
  unfold limitTriggerWriter.Write at 1. rewrite Hwr. cbn [zip_entry].
  set (n := Z.max 0 _). set (r := (zip_Write env (history w) p).2).
  set (rem := wrap64 _).
  assert (∀ (lw1 : limitTriggerWriter.t World) w1 d1,
    limitTriggerWriter.wr lw1 = zip_entry env →
    limitTriggerWriter.fn lw1 = Some cancel ∨ limitTriggerWriter.fn lw1 = None →
    w1 = grow w d1 → Forall quiet d1 →
    ∃ d, (let '(dst1, s1, (nw, ew)) := (lw1, w1, (n, r)) in
          let ew := if bool_decide (nw < 0 ∨ len p < nw)
                    then match ew with None => Some "invalid write result"%string
                                    | Some _ => ew end
                    else ew in
          match ew with
          | Some e => (s1, Some e)
          | None => if bool_decide (len p = nw)
                    then io_Copy limitTriggerWriter.Write dst1 src s1
                    else (s1, Some "short write"%string)
          end).1 = grow w d ∧ Forall quiet d) as Hstep.
  { intros lw1 w1 d1 Hwr1 Hfn1 -> Hq1. cbn zeta.
    destruct (if bool_decide _ then _ else r) as [x|]; [by exists d1|].
    case_bool_decide; [|by exists d1].
    destruct (IH lw1 (grow w d1) Hwr1 Hfn1) as (d & Hd & Hq).
    exists (d1 ++ d). rewrite Hd, grow_grow. split; [done|]. by apply Forall_app. }
  destruct Hfn as [Hfn|Hfn]; rewrite Hfn.
  - destruct (bool_decide (rem ≤ 0)).
    + apply (Hstep _ _ [EvWrite p n r; EvCancel]); [done|by right| |by repeat constructor].
      unfold cancel. by rewrite !emit_grow, grow_grow.
    + apply (Hstep _ _ [EvWrite p n r]); [done|by left|done|by repeat constructor].
  - apply (Hstep _ _ [EvWrite p n r]); [done|by right|done|by repeat constructor].
Qed.

(** The same without the trigger. *)
Lemma io_Copy_zip_plain src w :
  ∃ d, (io_Copy (plain_Write (zip_entry env)) tt src w).1 = grow w d ∧ Forall quiet d.
Proof.
  revert w. induction src as [|p src IH]; intros w.
  { exists []. by rewrite grow_nil. }
  cbn [io_Copy]. case_bool_decide; [by apply IH|].
  unfold plain_Write at 1. cbn [zip_entry].
  set (n := Z.max 0 _). set (r := (zip_Write env (history w) p).2).
  assert (Forall quiet [EvWrite p n r]) as Hq1 by (by repeat constructor).
  destruct (if bool_decide _ then _ else r) as [x|]; [by exists [EvWrite p n r]|].
  case_bool_decide; [|by exists [EvWrite p n r]].
  destruct (IH (emit (EvWrite p n r) w)) as (d & Hd & Hq).
  exists (EvWrite p n r :: d). rewrite Hd, emit_grow, grow_grow. split; [done|].
  by constructor.
Qed.

(** What [addTimeBasedProfile] does on a zip collector, by the outcome of
    [start] and of the header creation. *)
Lemma addTimeBasedProfile_zip {L} name targetSize
    (start : L → World → L * World * option error)
    (stop : L → World → L * World) e (l : L) w :
  let r := addTimeBasedProfile env name targetSize start stop (Z_ e) l w in
  let s := start l w in
  match s.2 with
  | Some _ => r = (s.1.1, s.1.2, None)
  | None =>
      match zip_CreateHeader env (history s.1.2) name with
      | Some x => r = (s.1.1, emit (EvHeader name (Some x)) s.1.2, Some x)
      | None =>
          ∃ d copyErr,
            Forall quiet d ∧
            let t := stop s.1.1 (grow s.1.2 (EvHeader name None :: d)) in
            let closeErr := pipe_Close env (history t.2) in
            r = (t.1, grow t.2 [EvClose closeErr; EvPump copyErr],
                 match copyErr with Some _ => copyErr | None => closeErr end)
      end
  end.
Proof.
  cbn zeta. unfold addTimeBasedProfile.
  destruct (start l w) as [[l1 w1] [x|]]; [done|]. cbn [fst snd zipped set_addErr
    NewZipCollector writeFileHeader].
  destruct (zip_CreateHeader env (history w1) name) as [x|]; [done|].
  assert (∃ d, (if bool_decide (0 < targetSize)
                then io_Copy limitTriggerWriter.Write
                       (limitTriggerWriter.mk (zip_entry env) (Some cancel) targetSize)
                       (pipe_Read env (history (emit (EvHeader name None) w1)))
                       (emit (EvHeader name None) w1)
                else io_Copy (plain_Write (zip_entry env)) tt
                       (pipe_Read env (history (emit (EvHeader name None) w1)))
                       (emit (EvHeader name None) w1)).1
               = grow (emit (EvHeader name None) w1) d ∧ Forall quiet d) as (d & Hd & Hq).
  { case_bool_decide; [apply io_Copy_zip_limit; [done|by left]|apply io_Copy_zip_plain]. }
  destruct (if bool_decide (0 < targetSize) then _ else _) as [w2 copyErr].
  cbn [fst] in Hd. subst w2. exists d, copyErr. split; [done|].
  rewrite emit_grow, grow_grow. cbn [app].
  destruct (stop l1 _) as [l2 w3]. cbn [fst snd].
  by rewrite !emit_grow, grow_grow.
Qed.

Lemma io_Copy_Buffer_zip buf w :
  ∃ d, (io_Copy_Buffer (zip_entry env) buf w).1 = grow w d ∧ Forall quiet d.
Proof.
  unfold io_Copy_Buffer. case_bool_decide; [|exists []; by rewrite grow_nil].
  cbn [zip_entry]. set (n := Z.max 0 _). set (r := (zip_Write env (history w) buf).2).
  exists [EvWrite buf n r]. split; [|by repeat constructor].
  destruct r; [done|]. by case_bool_decide.
Qed.

(** The events of a CPU capture, and the profilers after it. *)
Lemma addCPUProfile_zip name e w :
  let r := addCPUProfile env name (Z_ e) w in
  ∃ d, history r.1 = history w ++ d ∧ finishes d = 0%nat ∧
       traceOn r.1 = traceOn w ∧
       (r.2 = None →
        cpuOn r.1 = cpuOn w ∧ entries d = if cpuOn w then [] else [name]).
Proof.
  cbn zeta. unfold addCPUProfile.
  pose proof (addTimeBasedProfile_zip name (CPUProfileByteTarget (Collector.opt (Z_ e)))
    (plain_start pprof_StartCPUProfile) (plain_stop pprof_StopCPUProfile) e tt w) as H.
  cbn zeta in H. set (r := addTimeBasedProfile _ _ _ _ _ _ _ _) in *.
  unfold plain_start, plain_stop, pprof_StartCPUProfile in H.
  destruct (cpuOn w) eqn:Hcpu; cbn [fst snd] in H.
  { rewrite H. exists [EvStart CPU (Some "cpu profiling already in use"%string)].
    cbn. by rewrite Hcpu. }
  cbn [emit history] in H.
  destruct (zip_CreateHeader env _ name) as [x|].
  { rewrite H. eexists [_; _]. hist. done. }
  destruct H as (d & copyErr & Hq & H). cbn zeta in H. rewrite H. clear H.
  unfold pprof_StopCPUProfile. hist.
  eexists (_ :: _ :: d ++ [_; _; _]). hist.
  split_and!; [done| |done|].
  - cbn. rewrite finishes_app, finishes_quiet by done. done.
  - intros _. split; [done|]. cbn. rewrite entries_app, entries_quiet by done. done.
Qed.

(** The events of a trace capture, alone or with its wrapping CPU
    capture. *)
Lemma addExecutionTrace_zip name profileName e w :
  let r := addExecutionTrace env name profileName (Z_ e) w in
  ∃ d, history r.1 = history w ++ d ∧ finishes d = 0%nat ∧
       (r.2 = None →
        entries d =
          (if traceOn w then [] else [name]) ++
          (if bool_decide (0 < CPUProfileDuration opt) && negb (cpuOn w)
           then [profileName] else [])).
Proof.
  cbn zeta. unfold addExecutionTrace, addExecutionTrace_capture.
  change (Collector.opt (Z_ e)) with opt.
  case_bool_decide as Hcpd; cbn [andb].
  - pose proof (addTimeBasedProfile_zip name (ExecutionTraceByteTarget opt)
      addExecutionTrace_start (addExecutionTrace_stop env) e None w) as H.
    cbn zeta in H. set (r := addTimeBasedProfile _ _ _ _ _ _ _ _) in *.
    unfold addExecutionTrace_start, pprof_StartCPUProfile, trace_Start in H.
    destruct (cpuOn w) eqn:Hcpu, (traceOn w) eqn:Htr;
      cbn [fst snd emit history cpuOn traceOn] in H; rewrite ?Hcpu, ?Htr in H;
      cbn [fst snd emit history cpuOn traceOn negb] in H.
    + rewrite H. hist. by eexists [_; _].
    + destruct (zip_CreateHeader env _ name) as [x|].
      { rewrite H. hist. by eexists [_; _; _]. }
      destruct H as (d & copyErr & Hq & H). cbn zeta in H. rewrite H. clear H.
      unfold addExecutionTrace_stop. hist.
      exists (EvStart CPU (Some "cpu profiling already in use"%string)
              :: EvStart Trace None :: EvHeader name None :: d ++
              [EvStop Trace; EvClose (pipe_Close env (history w ++
                 EvStart CPU (Some "cpu profiling already in use"%string)
                 :: EvStart Trace None :: EvHeader name None :: d ++ [EvStop Trace]));
               EvPump copyErr]).
      split; [|split].
      * destruct copyErr; [|destruct (pipe_Close env _)]; by hist.
      * cbn. rewrite finishes_app, finishes_quiet by done. done.
      * intros _. cbn. rewrite entries_app, entries_quiet by done. done.
    + rewrite H. hist.
      destruct (zip_CreateHeader env _ profileName) as [x|]; hist.
      { by eexists [_; _; _]. }
      unfold io_Copy_Buffer. rewrite bool_decide_eq_false_2 by (unfold len; cbn [length]; lia). hist.
      by eexists [_; _; _].
    + destruct (zip_CreateHeader env _ name) as [x|].
      { rewrite H. hist.
        destruct (zip_CreateHeader env _ profileName) as [y|]; hist.
        - by eexists [_; _; _; _].
        - unfold io_Copy_Buffer. rewrite bool_decide_eq_false_2 by (unfold len; cbn [length]; lia). hist.
          by eexists [_; _; _; _]. }
      destruct H as (d & copyErr & Hq & H). cbn zeta in H. rewrite H. clear H.
      unfold addExecutionTrace_stop. hist.
      set (buf := cpu_Flush env _). set (cl := pipe_Close env _).
      set (hdr := zip_CreateHeader env _ profileName).
      destruct hdr as [y|]; hist.
      { exists (EvStart CPU None :: EvStart Trace None :: EvHeader name None :: d ++
                [EvStop Trace; EvStop CPU; EvClose cl; EvPump copyErr;
                 EvHeader profileName (Some y)]).
        split; [|split].
        - destruct copyErr; [|destruct cl]; by hist.
        - cbn. rewrite finishes_app, finishes_quiet by done. done.
        - destruct copyErr; [|destruct cl]; done. }
      match goal with |- context [io_Copy_Buffer _ _ ?w0] =>
        destruct (io_Copy_Buffer_zip buf w0) as (d2 & Hd2 & Hq2) end.
      destruct (io_Copy_Buffer _ _ _) as [w4 perr]. cbn [fst] in Hd2. subst w4.
      exists (EvStart CPU None :: EvStart Trace None :: EvHeader name None :: d ++
              [EvStop Trace; EvStop CPU; EvClose cl; EvPump copyErr;
               EvHeader profileName None] ++ d2).
      split; [|split].
      * destruct copyErr; [|destruct cl]; by hist.
      * cbn. rewrite !finishes_app, !finishes_quiet by done.
        cbn. by rewrite finishes_quiet.
      * intros _. cbn. rewrite !entries_app, entries_quiet by done.
        cbn. by rewrite entries_quiet.
  - pose proof (addTimeBasedProfile_zip name (ExecutionTraceByteTarget opt)
      (plain_start trace_Start) (plain_stop trace_Stop) e (@None bytes) w) as H.
    cbn zeta in H. set (r := addTimeBasedProfile _ _ _ _ _ _ _ _) in *.
    unfold plain_start, plain_stop, trace_Start in H.
    destruct (traceOn w) eqn:Htr; cbn [fst snd emit history] in H.
    + rewrite H. hist. by eexists [_].
    + destruct (zip_CreateHeader env _ name) as [x|].
      { rewrite H. hist. by eexists [_; _]. }
      destruct H as (d & copyErr & Hq & H). cbn zeta in H. rewrite H. clear H.
      hist.
      exists (EvStart Trace None :: EvHeader name None :: d ++
              [EvStop Trace; EvClose (pipe_Close env (history w ++
                 EvStart Trace None :: EvHeader name None :: d ++ [EvStop Trace]));
               EvPump copyErr]).
      split; [|split].
      * destruct copyErr; [|destruct (pipe_Close env _)]; by hist.
      * cbn. rewrite finishes_app, finishes_quiet by done. done.
      * intros _. cbn. rewrite entries_app, entries_quiet by done. done.
Qed.

End Collector_zip_facts.

(** ** The collector: a whole run *)

Section Collector_run_facts.
Import Collector.
Context (env : Env) (meta : ArchiveMeta) (opt : ArchiveOptions).

Local Abbreviation Z_ := (zipped env meta opt).

Lemma metaSource_writable : writable (Some (metaSource env meta)) = true.
Proof. unfold metaSource. by destruct (json_Marshal env meta). Qed.

(** The sources of the static part that [add] does not pass over are the
    fixed ones, the profiles and the custom sources with a [WriteTo]. *)
Lemma statics_written :
  (filter (λ ns, writable ns.2 = true) (statics env meta opt)).*1 =
  static_entries env (custom_written opt).
Proof.
  unfold statics, static_entries. rewrite !filter_app, !fmap_app. f_equal; [|f_equal].
  - rewrite !filter_cons, filter_nil. cbn [snd].
    rewrite decide_True by apply metaSource_writable.
    by rewrite !decide_True by done.
  - induction (filter _ (pprof_Profiles env)) as [|n l IH]; [done|].
    rewrite fmap_cons, filter_cons. cbn [snd fst]. rewrite decide_True by done.
    cbn. by rewrite <- IH.
  - unfold custom_written, custom_names.
    induction (sort_Strings _) as [|n l IH]; [done|].
    rewrite fmap_cons, !filter_cons. cbn [snd fst].
    destruct (writable _) eqn:Hw.
    + rewrite !decide_True by done. cbn. by rewrite <- IH.
    + rewrite !decide_False by done. apply IH.
Qed.

Lemma captured_capture_entries w :
  ¬ trace_refused_under_profile opt w → captured opt w = capture_entries opt w.
Proof.
  unfold trace_refused_under_profile, captured, capture_entries, cpu_ran, trace_ran.
  intros H. do 2 case_bool_decide; destruct (cpuOn w), (traceOn w); try done.
  destruct H. done.
Qed.

(** A run that fails in its static part stops there. *)
Lemma Run_static_failure w e :
  addErr (Run_static env (Z_ None) w).1 = Some e →
  Run env (Z_ None) w = (Run_static env (Z_ None) w, Some e) ∧
  ∃ d, history (Run_static env (Z_ None) w).2 = history w ++ d ∧ finishes d = 0%nat.
Proof.
  intros He. split.
  - unfold Run. destruct (Run_static env (Z_ None) w) as [c1 w1]. cbn in He.
    by rewrite He.
  - rewrite Run_static_adds. change (statics _ _ _) with (statics env meta opt).
    destruct (adds_zip env meta opt (statics env meta opt) None w) as (e1 & d & H & F & _).
    rewrite H. by exists d.
Qed.

(** A run that succeeds has created the static entries, then those of the
    captures, and has then called [finish], once. *)
Lemma Run_success w :
  (Run env (Z_ None) w).2 = None →
  ∃ d, history (Run env (Z_ None) w).1.2 = history w ++ d ++ [EvFinish None] ∧
       finishes d = 0%nat ∧
       entries d = static_entries env (custom_written opt) ++ captured opt w.
Proof.
  unfold Run. rewrite Run_static_adds. change (statics _ _ _) with (statics env meta opt).
  destruct (adds_zip env meta opt (statics env meta opt) None w) as (e1 & d1 & H1 & F1 & E1).
  rewrite H1. destruct e1 as [x|]; [done|]. destruct (E1 eq_refl) as [_ E1'].
  change (addErr (Z_ None)) with (@None error). change (Collector.opt (Z_ None)) with opt.
  rewrite statics_written in E1'. unfold captured, cpu_ran.
  (* the CPU capture *)
  assert (∃ w2 d2 err2,
    (if bool_decide (0 < CPUProfileDuration opt)
     then addCPUProfile env "pprof/profile" (Z_ None) (grow w d1)
     else (grow w d1, None)) = (w2, err2) ∧
    history w2 = history w ++ d1 ++ d2 ∧ finishes d2 = 0%nat ∧
    traceOn w2 = traceOn w ∧
    (err2 = None → cpuOn w2 = cpuOn w ∧
       entries d2 = if bool_decide (0 < CPUProfileDuration opt) && negb (cpuOn w)
                    then ["pprof/profile"] else [])) as (w2 & d2 & err2 & H2 & Hh2 & F2 & T2 & E2).
  { destruct (bool_decide (0 < CPUProfileDuration opt)).
    - destruct (addCPUProfile_zip env meta opt "pprof/profile" None (grow w d1))
        as (d2 & Hh & F & T & E).
      destruct (addCPUProfile _ _ _ _) as [w2 err2]. exists w2, d2, err2.
      cbn [fst snd grow history cpuOn traceOn] in *. rewrite <- app_assoc in Hh.
      split_and!; try done. intros He. destruct (E He) as [-> ->].
      by destruct (cpuOn w).
    - exists (grow w d1), [], None. cbn. by rewrite app_nil_r. }
  rewrite H2. destruct err2 as [x|]; [done|]. destruct (E2 eq_refl) as [C2 E2'].
  (* the trace capture *)
  assert (∃ w3 d3 err3,
    (if bool_decide (0 < ExecutionTraceDuration opt)
     then addExecutionTrace env "pprof/trace" "pprof/profile-during-trace" (Z_ None) w2
     else (w2, None)) = (w3, err3) ∧
    history w3 = history w ++ d1 ++ d2 ++ d3 ∧ finishes d3 = 0%nat ∧
    (err3 = None →
       entries d3 =
         if bool_decide (0 < ExecutionTraceDuration opt)
         then (if traceOn w then [] else ["pprof/trace"])
              ++ (if bool_decide (0 < CPUProfileDuration opt) && negb (cpuOn w)
                  then ["pprof/profile-during-trace"] else [])
         else [])) as (w3 & d3 & err3 & H3 & Hh3 & F3 & E3).
  { destruct (bool_decide (0 < ExecutionTraceDuration opt)).
    - destruct (addExecutionTrace_zip env meta opt "pprof/trace"
                  "pprof/profile-during-trace" None w2) as (d3 & Hh & F & E).
      destruct (addExecutionTrace _ _ _ _ _) as [w3 err3]. exists w3, d3, err3.
      cbn [fst snd] in *. rewrite Hh, Hh2, <- !app_assoc.
      split_and!; try done. intros He. rewrite (E He), T2, C2. done.
    - exists w2, [], None. rewrite Hh2, !app_nil_r. done. }
  rewrite H3. destruct err3 as [x|]; [done|]. specialize (E3 eq_refl).
  cbn [finish zipped set_addErr NewZipCollector fst snd].
  destruct (zip_Close env (history w3)) as [x|] eqn:Hc; [done|]. intros _.
  exists (d1 ++ d2 ++ d3). cbn [fst snd emit history]. rewrite Hh3, <- ?app_assoc.
  split_and!; [done|rewrite !finishes_app; lia|].
  by rewrite !entries_app, E1', E2', E3, <- ?app_assoc.
Qed.

End Collector_run_facts.

(** ** The collector: order of entries, finalization, capture errors *)

Section Collector_theorems.
Import Collector.

Lemma StronglySorted_filter {A} (R : relation A) (P : A → Prop)
    `{∀ x, Decision (P x)} (l : list A) :
  StronglySorted R l → StronglySorted R (filter P l).
Proof.
  induction 1 as [|x l Hl IH Hx]; [constructor|].
  rewrite filter_cons. case_decide; [|done]. constructor; [done|].
  apply Forall_forall. intros y [_ Hy]%list_elem_of_filter.
  by eapply Forall_forall in Hx.
Qed.

(** The custom names [Run] writes are in increasing order, without
    repetition, and are the names bound to a source with a [WriteTo]. *)
Lemma custom_written_spec (opt : ArchiveOptions) :
  Sorted String.le (custom_written opt) ∧
  NoDup (custom_written opt) ∧
  ∀ name, name ∈ custom_written opt ↔
          ∃ src, CustomDataSources opt !! name = Some src ∧ writable src = true.
Proof.
  unfold custom_written, custom_names, sort_Strings. split_and!.
  - apply StronglySorted_Sorted, StronglySorted_filter.
    apply StronglySorted_merge_sort; apply _.
  - apply NoDup_filter. rewrite merge_sort_Permutation. apply NoDup_fst_map_to_list.
  - intros name. rewrite list_elem_of_filter, merge_sort_Permutation, list_elem_of_fmap.
    split.
    + intros (Hw & [n src] & -> & Hin). apply elem_of_map_to_list in Hin.
      cbn in *. rewrite Hin in Hw. by exists src.
    + intros (src & Hl & Hw). split; [by rewrite Hl|].
      exists (name, src). split; [done|]. by apply elem_of_map_to_list.
Qed.

(** C1, amended. A run that returns nil has created its entries in this
    order: [meta], [expvar], [pprof/heap], [pprof/<name>] for every other
    profile, [custom/<name>] in increasing order of the names for the
    custom sources that are not nil and have a [WriteTo], [pprof/profile]
    if the CPU capture was requested and ran, [pprof/trace] if the trace
    capture was requested and ran, [pprof/profile-during-trace] if both
    ran. Runs whose trace capture is refused after the wrapping CPU
    capture has started are left aside. *)
Theorem Run_creates_entries_in_order
    (env : Env) (meta : ArchiveMeta) (opt : ArchiveOptions) (w : World) :
  let r := Run env (NewZipCollector env meta opt) w in
  ¬ trace_refused_under_profile opt w →
  r.2 = None →
  entries (since w r.1.2) =
    static_entries env (custom_written opt) ++ capture_entries opt w ∧
  Sorted String.le (custom_written opt) ∧
  NoDup (custom_written opt) ∧
  ∀ name, name ∈ custom_written opt ↔
          ∃ src, CustomDataSources opt !! name = Some src ∧ writable src = true.
Proof.
  intros r Hslip Hr. split; [|apply custom_written_spec].
  destruct (Run_success env meta opt w Hr) as (d & Hh & _ & Hd).
  subst r. change (NewZipCollector env meta opt) with (zipped env meta opt None).
  rewrite (since_app _ _ _ Hh), entries_app, Hd. cbn.
  by rewrite app_nil_r, captured_capture_entries.
Qed.

(** C2, amended. If the static part of a run ends with [addErr] set, [Run]
    returns that error from the state the static part left, and [finish]
    has not been called. If [Run] returns nil, [finish] has been called
    exactly once, as the last thing done. *)
Theorem Run_finishes_only_on_success
    (env : Env) (meta : ArchiveMeta) (opt : ArchiveOptions) (w : World) :
  let c0 := NewZipCollector env meta opt in
  let r := Run env c0 w in
  (∀ e, addErr (Run_static env c0 w).1 = Some e →
        r = (Run_static env c0 w, Some e) ∧ finishes (since w r.1.2) = 0%nat) ∧
  (r.2 = None →
   finishes (since w r.1.2) = 1%nat ∧ last (history r.1.2) = Some (EvFinish None)).
Proof.
  intros c0 r. subst r c0.
  change (NewZipCollector env meta opt) with (zipped env meta opt None). split.
  - intros e He. destruct (Run_static_failure env meta opt w e He) as (Hr & d & Hh & Hf).
    split; [done|]. rewrite Hr. cbn [fst snd].
    by rewrite (since_app _ _ _ Hh).
  - intros Hr. destruct (Run_success env meta opt w Hr) as (d & Hh & Hf & _).
    rewrite (since_app _ _ _ Hh), Hh, finishes_app, Hf.
    split; [done|]. by rewrite app_assoc, last_snoc.
Qed.

(** C5, amended. If [start] fails, the capture returns nil with the world
    as [start] left it: no header is created. If [start] succeeds and the
    header cannot be created, that error is returned at once. Otherwise the
    pipe is closed and the pump awaited, and the error returned is the
    pump's copy error if it has one, else the error of the close. *)
Theorem addTimeBasedProfile_reports
    {L} (env : Env) (name : string) (targetSize : Z)
    (start : L → World → L * World * option error)
    (stop : L → World → L * World) (c : t) (l : L) (w : World) :
  let r := addTimeBasedProfile env name targetSize start stop c l w in
  let s := start l w in
  match s.2 with
  | Some _ => r = (s.1.1, s.1.2, None)
  | None =>
      match writeFileHeader c name s.1.2 with
      | (w1, inr err) => r = (s.1.1, w1, Some err)
      | (w1, inl _) =>
          ∃ w3 copyErr closeErr,
            r.1.2 = emit (EvPump copyErr) (emit (EvClose closeErr) w3) ∧
            r.2 = match copyErr with Some _ => copyErr | None => closeErr end
      end
  end.
Proof.
  cbn zeta. unfold addTimeBasedProfile.
  destruct (start l w) as [[l1 w1] [x|]]; [done|]. cbn [fst snd].
  destruct (writeFileHeader c name w1) as [w2 [wr|err]]; [|done].
  destruct (if bool_decide (0 < targetSize) then _ else _) as [w3 copyErr].
  destruct (stop l1 w3) as [l2 w4]. cbn [fst snd]. by eexists _, _, _.
Qed.


End Collector_theorems.

(** ** The collector on the sample collaborators *)

(** C1 as first stated fails: a custom source whose [WriteTo] is nil gets
    no entry although the run succeeds. *)
Lemma custom_source_without_WriteTo_gets_no_entry :
  ¬ entries_in_stated_order ok_env sample_meta no_WriteTo_opt idle.
Proof.
  unfold entries_in_stated_order. intros H.
  assert ((Collector.Run ok_env (Collector.NewZipCollector ok_env sample_meta no_WriteTo_opt)
             idle).2 = None) as Hr by (by vm_compute).
  specialize (H Hr). vm_compute in H. discriminate H.
Qed.

Lemma Run_creates_entries_in_order_witness :
  entries (since idle
    (Collector.Run ok_env (Collector.NewZipCollector ok_env sample_meta both_opt) idle).1.2) =
  static_entries ok_env (custom_written both_opt) ++ capture_entries both_opt idle.
Proof.
  refine (proj1 (Run_creates_entries_in_order ok_env sample_meta both_opt idle _ _)).
  - intros (_ & _ & _ & H). discriminate H.
  - vm_compute. reflexivity.
Defined.

(** C2 as first stated fails: when the metadata cannot be serialised the
    run returns the error without having called [finish]. *)
Lemma static_failure_is_not_finalized :
  ¬ finalized_after_static_failure meta_fails_env sample_meta no_opt idle.
Proof.
  unfold finalized_after_static_failure. intros H.
  destruct H as [_ H]; [by vm_compute|]. vm_compute in H. lia.
Qed.

Lemma static_failure_skips_the_rest_witness :
  Collector.Run meta_fails_env
    (Collector.NewZipCollector meta_fails_env sample_meta no_opt) idle =
  (Collector.add "meta" (Some (metaSource meta_fails_env sample_meta))
     (Collector.NewZipCollector meta_fails_env sample_meta no_opt) idle,
   Some "json: unsupported value").
Proof.
  refine (proj2 (proj2 (static_failure_skips_the_rest meta_fails_env sample_meta no_opt
    idle [] (tail (Collector.statics meta_fails_env sample_meta no_opt))
    "meta" (Some (metaSource meta_fails_env sample_meta))
    "json: unsupported value" _ _ _))).
  - reflexivity.
  - reflexivity.
  - vm_compute. reflexivity.
Defined.

(** C5 as first stated fails: with the capture started and the header
    refused, the error returned is neither a copy nor a close error, none
    of which happened. *)
Lemma header_error_is_reported :
  ¬ reports_copy_then_close_error header_fails_env "pprof/profile" 0
      (Collector.plain_start pprof_StartCPUProfile)
      (Collector.plain_stop pprof_StopCPUProfile)
      (Collector.NewZipCollector header_fails_env sample_meta no_opt) tt idle.
Proof.
  unfold reports_copy_then_close_error. vm_compute. discriminate.
Qed.


Lemma Run_finishes_only_on_success_witness :
  Collector.Run meta_fails_env
    (Collector.NewZipCollector meta_fails_env sample_meta no_opt) idle =
  (Collector.Run_static meta_fails_env
     (Collector.NewZipCollector meta_fails_env sample_meta no_opt) idle,
   Some "json: unsupported value") ∧
  finishes (since idle (Collector.Run meta_fails_env
    (Collector.NewZipCollector meta_fails_env sample_meta no_opt) idle).1.2) = 0%nat.
Proof.
  refine (proj1 (Run_finishes_only_on_success meta_fails_env sample_meta no_opt idle)
            "json: unsupported value" _).
  vm_compute. reflexivity.
Defined.

Lemma limitTriggerWriter_forwards_and_fires_once_witness :
  let ps := [String.list_byte_of_string "ab"; String.list_byte_of_string "cd";
             String.list_byte_of_string "e"] in
  let run k := limitTriggerWriter.Writes
                 (limitTriggerWriter.armed (limitTriggerWriter.bufWriter 4) 3)
                 (take k ps) ([], 0%nat) in
  ((run (length ps)).1.2.1, (run (length ps)).2) =
    limitTriggerWriter.direct (limitTriggerWriter.bufWriter 4) ps [] ∧
  ∀ k, (run k).1.2.2 =
       if bool_decide (3 ≤ limitTriggerWriter.forwarded
            (limitTriggerWriter.direct (limitTriggerWriter.bufWriter 4) (take k ps) []).2)
       then 1%nat else 0%nat.
Proof.
  refine (limitTriggerWriter_forwards_and_fires_once (limitTriggerWriter.bufWriter 4)
            3 _ [] _ (bufWriter_obeys_contract 4) _).
  - unfold MaxInt64. lia.
  - repeat constructor; unfold len, MaxInt64; cbn; lia.
Defined.

(** ** The periodic scheduler *)

Lemma Int63n_range n g :
  0 < n → ∃ x g', Int63n n g = Some (x, g') ∧ 0 ≤ x < n.
Proof.
  intros Hn. unfold Int63n. rewrite bool_decide_eq_false_2 by lia.
  eexists _, _. split; [done|]. by apply Z.mod_pos_bound.
Qed.

(** C9. Whatever the generator holds, the options of iteration 0 have a
    zero CPU-profile duration and a zero execution-trace duration; the
    timer of [delay] is set to a duration within [[0, D]] for iteration 0
    and within [[0.8 D, D]] for every later iteration, [D] being
    [defaultProfileInterval]. *)
Theorem first_options_and_delay_bounds (r : runner.t) :
  (∃ opts r', runner.options 0 r = Some (opts, r') ∧
              CPUProfileDuration opts = 0 ∧ ExecutionTraceDuration opts = 0) ∧
  (∃ d r', runner.delay 0 r = Some (d, r') ∧ 0 ≤ d ≤ defaultProfileInterval) ∧
  (∀ i, 0 < i →
        ∃ d r', runner.delay i r = Some (d, r') ∧
                4 * defaultProfileInterval ≤ 5 * d ∧ d ≤ defaultProfileInterval).
Proof.
  split_and!.
  - unfold runner.options. rewrite (bool_decide_eq_true_2 (0 = 0)) by done.
    destruct (bool_decide (runner.nextExecTrace r = 0)).
    + destruct (Int63n_range 100 (runner.rng r)) as (x & g & Hx & _); [lia|].
      unfold Intn. rewrite Hx. cbn. by eexists _, _.
    + cbn. by eexists _, _.
  - unfold runner.delay. rewrite bool_decide_eq_false_2 by lia.
    destruct (Int63n_range defaultProfileInterval (runner.rng r)) as (x & g & Hx & Hr);
      [by vm_compute|].
    rewrite Hx. cbn. eexists _, _. split; [done|]. lia.
  - intros i Hi. unfold runner.delay. rewrite bool_decide_eq_true_2 by done.
    destruct (Int63n_range (defaultProfileInterval `quot` 5) (runner.rng r))
      as (x & g & Hx & Hr); [by vm_compute|].
    rewrite Hx. cbn. eexists _, _. split; [done|].
    change (defaultProfileInterval `quot` 5) with 24000000000 in Hr.
    change defaultProfileInterval with 120000000000. lia.
Qed.

Lemma first_options_and_delay_bounds_witness :
  ∃ d r', runner.delay 3 (runner.mk (mkRand (λ _, 41) 0) 0) = Some (d, r') ∧
          4 * defaultProfileInterval ≤ 5 * d ∧ d ≤ defaultProfileInterval.
Proof.
  refine (proj2 (proj2 (first_options_and_delay_bounds
            (runner.mk (mkRand (λ _, 41) 0) 0))) 3 _).
  lia.
Defined.

(** ** The linked-list buffer *)

Section linkedListBuffer_facts.
Import linkedListBuffer.

Lemma seg_app h a l1 l2 c :
  seg h a (l1 ++ l2) c ↔ ∃ m, seg h a l1 m ∧ seg h m l2 c.
Proof.
  revert a. induction l1 as [|x l1 IH]; intros a; cbn [seg app].
  - split; [intros H; by exists a|by intros (m & -> & H)].
  - rewrite IH. split.
    + intros (Ha & Hx & m & H1 & H2). by exists m.
    + intros (m & (Ha & Hx & H1) & H2). split_and!; [done..|by exists m].
Qed.

Lemma seg_allocated h a lks c : seg h a lks c → Forall (λ l, l < length h)%nat lks.*1.
Proof.
  revert a. induction lks as [|x lks IH]; intros a; cbn [seg fmap list_fmap]; [by constructor|].
  intros (_ & Hx & H). constructor; [by eapply lookup_lt_Some|by eapply IH].
Qed.

Lemma seg_insert h a lks c l v :
  l ∉ lks.*1 → seg h a lks c → seg (<[l := v]> h) a lks c.
Proof.
  revert a. induction lks as [|x lks IH]; intros a; cbn [seg fmap list_fmap]; [done|].
  intros Hl (Ha & Hx & H). apply not_elem_of_cons in Hl as [Hne Hl].
  split_and!; [done| |by apply IH]. by rewrite list_lookup_insert_ne.
Qed.

Lemma seg_grow h h2 a lks c : seg h a lks c → seg (h ++ h2) a lks c.
Proof.
  revert a. induction lks as [|x lks IH]; intros a; cbn [seg fmap list_fmap]; [done|].
  intros (Ha & Hx & H). split_and!; [done| |by apply IH].
  by apply lookup_app_l_Some.
Qed.

Lemma contents_app l1 l2 : contents (l1 ++ l2) = contents l1 ++ contents l2.
Proof. unfold contents. by rewrite fmap_app, concat_app. Qed.

Lemma contents_nil_filled lks : Forall filled lks → contents lks = [] → lks = [].
Proof.
  destruct 1 as [|x lks [Hx _] _]; [done|]. unfold contents. cbn.
  intros [? _]%app_eq_nil. done.
Qed.

Lemma chained_nil b h lks : chained b h lks → (head b = None ↔ lks = []).
Proof.
  intros (Hs & _). destruct lks as [|x lks]; cbn in Hs; [done|].
  destruct Hs as [-> _]. done.
Qed.

Lemma seg_last h a pre x c :
  seg h a (pre ++ [x]) c ↔
  seg h a pre (Some x.1) ∧ h !! x.1 = Some x.2 ∧ next x.2 = c.
Proof.
  rewrite seg_app. cbn [seg]. split.
  - intros (m & H1 & -> & H2 & H3). done.
  - intros (H1 & H2 & H3). by exists (Some x.1).
Qed.

Lemma newLink_cap b :
  (0 < Z.to_nat (if bool_decide (Size b ≤ 0)%Z then defaultSize else Size b))%nat.
Proof. case_bool_decide; [change defaultSize with 16384|]; lia. Qed.

(** The loop of [Write] ends within its bound, keeps the chain and appends
    [p] to its bytes. *)
Lemma Write_loop_spec fuel b h pre x p :
  chained_open b h pre x →
  p ≠ [] ∨ body x.2 ≠ [] →
  (2 * length p ≤ fuel +
     (if decide (length (body x.2) < body_cap x.2)%nat then 1 else 0))%nat →
  ∃ b' h' lks',
    Write_loop fuel b h p = Some (b', h') ∧
    chained b' h' lks' ∧
    contents lks' = contents (pre ++ [x]) ++ p ∧
    Size b' = Size b.
Proof.
  revert b h pre x p. induction fuel as [|fuel IH]; intros b h pre x p
    (Hseg & Hnd & Hpre & Hlen & Hcap & Htl) Hne Hfuel.
  all: destruct p as [|c p].
  1,3: (exists b, h, (pre ++ [x]); split_and!; [done| |by rewrite app_nil_r|done];
        split_and!; [done|done| |];
        [apply Forall_app; split; [done|]; constructor; [|done];
           split; [by destruct Hne|done]
        |by intros pre' x' [_ <-]%app_inj_tail]).
  { cbn [length] in Hfuel. case_decide; lia. }
  pose proof Hseg as (Hs1 & Hlk & Hnx)%seg_last.
  assert (x.1 ∉ pre.*1) as Hfresh.
  { rewrite fmap_app in Hnd. apply NoDup_app in Hnd as (_ & Hnd & _).
    intros Hin. apply (Hnd _ Hin). cbn. left. }
  assert (x.1 < length h)%nat as Hx by (by eapply lookup_lt_Some).
  cbn [Write_loop]. rewrite Htl. cbn [mbind option_bind]. rewrite Hlk.
  cbn [mbind option_bind]. set (q := c :: p) in *.
  set (n := ((body_cap x.2 - length (body x.2)) `min` length q)%nat).
  case_bool_decide as Hn.
  - (* the tail is full: a new link is appended *)
    assert (length (body x.2) = body_cap x.2) as Hfull.
    { subst n q. cbn [length] in Hn. lia. }
    rewrite Hn, take_0, drop_0, app_nil_r. unfold newLink.
    rewrite length_insert, lookup_app_l by (by rewrite length_insert).
    rewrite list_lookup_insert_eq by done. cbn [mbind option_bind body body_cap next].
    set (lnew := mkLink None [] _).
    set (lk' := mkLink (Some (length h)) (body x.2) (body_cap x.2)).
    destruct (IH (mk (Size b) (head b) (Some (length h)))
                 (<[x.1 := lk']> (<[x.1 := mkLink (next x.2) (body x.2) (body_cap x.2)]> h
                                  ++ [lnew]))
                 (pre ++ [(x.1, lk')]) (length h, lnew) q)
      as (b' & h' & lks' & HW & Hch & Hc & Hsz).
    + split_and!; cbn [head tail fst snd body body_cap];
        [| | |subst lnew; cbn; lia|subst lnew; apply newLink_cap|done].
      * apply seg_last. cbn [fst snd]. split_and!; [|by rewrite list_lookup_insert_ne,
          lookup_app_r, length_insert, Nat.sub_diag by (rewrite ?length_insert; lia)|done].
        apply seg_last. cbn [fst snd]. split_and!; [| |done].
        -- apply seg_insert; [done|]. apply seg_grow. by apply seg_insert.
        -- rewrite list_lookup_insert_eq; [done|].
           rewrite length_app, length_insert. lia.
      * rewrite !fmap_app in *. cbn [fmap list_fmap fst] in *.
        apply NoDup_app. split_and!; [done| |by apply NoDup_singleton].
        intros l Hl ->%list_elem_of_singleton.
        apply elem_of_app in Hl as [Hl|Hl%list_elem_of_singleton]; [|lia].
        pose proof (seg_allocated _ _ _ _ Hs1) as Hall.
        eapply Forall_forall in Hall; [|done]. lia.
      * apply Forall_app. split; [done|]. constructor; [|done].
        split; cbn; [|lia]. intros Hb. rewrite Hb in Hfull. cbn in Hfull. lia.
    + by left.
    + cbn [snd body body_cap length]. rewrite decide_True by apply newLink_cap.
      rewrite decide_False in Hfuel by lia. lia.
    + exists b', h', lks'. split_and!; [done|done| |done].
      rewrite Hc, !contents_app. unfold contents. cbn. by rewrite !app_nil_r.
  - (* room in the tail: bytes are copied *)
    assert (0 < n ≤ body_cap x.2 - length (body x.2))%nat as Hn'.
    { subst n q. cbn [length] in *. lia. }
    set (lk' := mkLink (next x.2) (body x.2 ++ take n q) (body_cap x.2)).
    destruct (IH b (<[x.1 := lk']> h) pre (x.1, lk') (drop n q))
      as (b' & h' & lks' & HW & Hch & Hc & Hsz).
    + split_and!; cbn [fst snd body body_cap]; [| | | |done|done].
      * apply seg_last. cbn [fst snd]. split_and!; [by apply seg_insert| |done].
        by rewrite list_lookup_insert_eq.
      * by rewrite !fmap_app in *.
      * done.
      * subst lk'. cbn [body body_cap]. rewrite length_app, length_take. lia.
    + right. subst lk'. cbn [snd body]. intros [_ Ht]%app_eq_nil.
      apply (f_equal length) in Ht. rewrite length_take in Ht. cbn [length] in Ht. lia.
    + rewrite length_drop. clearbody n. do 2 case_decide; lia.
    + exists b', h', lks'. split_and!; [done|done| |done].
      rewrite Hc, !contents_app. unfold contents. cbn. rewrite !app_nil_r.
      by rewrite <- !app_assoc, take_drop.
Qed.

Lemma chained_new size : chained (new size).1 (new size).2 [].
Proof.
  split_and!; [done|constructor|constructor|].
  intros pre x H. by destruct pre.
Qed.

(** [Write] returns, keeps the chain and appends [p] to its bytes. *)
Lemma Write_spec b h lks p :
  chained b h lks →
  ∃ b' h' lks',
    Write b p h = Some (b', h', (len p, None)) ∧
    chained b' h' lks' ∧
    contents lks' = contents lks ++ p ∧
    Size b' = Size b.
Proof.
  intros Hch. pose proof Hch as (Hseg & Hnd & Hfill & Htl). unfold Write.
  destruct (nil_or_length_pos p) as [->|Hp].
  { exists b, h, lks. rewrite bool_decide_eq_false_2 by (unfold len; cbn; lia).
    cbn. by rewrite app_nil_r. }
  assert (p ≠ []) as Hp' by (intros ->; cbn in Hp; lia).
  destruct lks as [|x0 lks0 _] using rev_ind.
  - (* empty chain: the first link is allocated *)
    cbn [seg] in Hseg. rewrite bool_decide_eq_true_2 by (unfold len; split; [done|lia]).
    unfold newLink. set (lnew := mkLink None [] _).
    destruct (Write_loop_spec (2 * length p) (mk (Size b) (Some (length h)) (Some (length h)))
                (h ++ [lnew]) [] (length h, lnew) p)
      as (b' & h' & lks' & HW & Hch' & Hc & Hsz).
    + split_and!; cbn [head tail fst snd app]; [|by apply NoDup_singleton|done|
        subst lnew; cbn; lia|subst lnew; apply newLink_cap|done].
      cbn [seg fst snd]. split_and!; [done| |done].
      by rewrite lookup_app_r, Nat.sub_diag.
    + by left.
    + lia.
    + rewrite HW. cbn. exists b', h', lks'. by rewrite Hc.
  - (* the chain ends in the tail link *)
    pose proof Hseg as (Hs1 & Hlk & Hnx)%seg_last.
    assert (head b ≠ None) as Hhd.
    { destruct lks0; cbn [seg app] in Hseg; [by destruct Hseg as [-> _]|].
      by destruct Hseg as [-> _]. }
    rewrite bool_decide_eq_false_2 by (by intros [? _]).
    apply Forall_app in Hfill as [Hf0 [[Hx1 Hx2] _]%Forall_cons].
    destruct (Write_loop_spec (2 * length p) b h lks0 x0 p)
      as (b' & h' & lks' & HW & Hch' & Hc & Hsz).
    + split_and!; [done|done|done|done| |by eapply Htl].
      destruct (body x0.2); [done|cbn in *; lia].
    + by left.
    + lia.
    + rewrite HW. cbn. by exists b', h', lks'.
Qed.

(** [Read] returns; it gives a prefix of the chain's bytes and leaves the
    rest, reports EOF exactly on the empty chain, and takes at least one
    byte from a non-empty chain into a non-empty buffer. *)
Lemma Read_spec b h lks k :
  chained b h lks →
  ∃ b' h' lks' r e,
    Read b k h = Some (b', h', (r, e)) ∧
    chained b' h' lks' ∧
    contents lks = r ++ contents lks' ∧
    (e ≠ None ↔ lks = []) ∧
    ((0 < k)%nat → lks ≠ [] → r ≠ []).
Proof.
  intros (Hseg & Hnd & Hfill & Htl). unfold Read.
  destruct lks as [|x lks]; cbn [seg] in Hseg.
  { rewrite Hseg. exists b, h, [], [], (Some "EOF"%string).
    split_and!; [done| |done|done|done]. by split_and!. }
  destruct Hseg as (Hhd & Hlk & Hs). rewrite Hhd, Hlk. cbn [mbind option_bind].
  apply Forall_cons in Hfill as [[Hx1 Hx2] Hfill].
  apply NoDup_cons in Hnd as [Hfresh Hnd].
  set (n := (k `min` length (body x.2))%nat).
  cbn [body next body_cap]. case_bool_decide as Hd.
  - (* the head link is drained and unlinked *)
    exists (mk (Size b) (next x.2) (tail b)), (<[x.1 := mkLink (next x.2)
      (drop n (body x.2)) (body_cap x.2 - n)]> h), lks, (take n (body x.2)), None.
    split_and!; [done| | |done|].
    + split_and!; cbn [head tail]; [by apply seg_insert|done|done|].
      intros pre y ->. apply (Htl (x :: pre)). done.
    + unfold contents. cbn. rewrite length_drop in Hd.
      rewrite take_ge by lia. done.
    + intros Hk _ Ht. apply (f_equal length) in Ht. rewrite length_take in Ht.
      cbn in Ht. destruct (body x.2); [done|]. cbn in *. lia.
  - (* bytes remain in the head link *)
    exists b, (<[x.1 := mkLink (next x.2) (drop n (body x.2)) (body_cap x.2 - n)]> h),
      ((x.1, mkLink (next x.2) (drop n (body x.2)) (body_cap x.2 - n)) :: lks),
      (take n (body x.2)), None.
    rewrite length_drop in Hd.
    split_and!; [done| | |done|].
    + split_and!.
      * cbn [seg fst snd next]. split_and!; [done| |by apply seg_insert].
        rewrite list_lookup_insert_eq; [done|]. by eapply lookup_lt_Some.
      * by constructor.
      * constructor; [|done]. split; cbn [snd body body_cap].
        -- intros Ht. apply (f_equal length) in Ht. rewrite length_drop in Ht.
           cbn in Ht. lia.
        -- rewrite length_drop. lia.
      * intros pre y Heq. destruct pre as [|z pre].
        -- cbn in Heq. injection Heq as <- ->. apply (Htl [] x). done.
        -- cbn in Heq. injection Heq as <- ->. apply (Htl (x :: pre) y). done.
    + unfold contents. cbn. by rewrite app_assoc, take_drop.
    + intros Hk _ Ht. apply (f_equal length) in Ht. rewrite length_take in Ht.
      cbn in Ht. destruct (body x.2); [done|]. cbn in *. lia.
Qed.

Lemma Writes_spec b h lks ps :
  chained b h lks →
  ∃ b' h' lks',
    Writes b ps h = Some (b', h') ∧
    chained b' h' lks' ∧
    contents lks' = contents lks ++ concat ps.
Proof.
  revert b h lks. induction ps as [|p ps IH]; intros b h lks Hch.
  { exists b, h, lks. by rewrite app_nil_r. }
  destruct (Write_spec b h lks p Hch) as (b1 & h1 & lks1 & HW & Hch1 & Hc1 & _).
  destruct (IH b1 h1 lks1 Hch1) as (b2 & h2 & lks2 & HWs & Hch2 & Hc2).
  exists b2, h2, lks2. cbn [Writes]. rewrite HW. cbn [mbind option_bind].
  split_and!; [done..|]. cbn [concat]. by rewrite Hc2, Hc1, app_assoc.
Qed.

Lemma Reads_spec b h lks ks :
  chained b h lks →
  ∃ b' h' lks' out,
    Reads b ks h = Some (b', h', out) ∧
    chained b' h' lks' ∧
    contents lks = concat out ++ contents lks' ∧
    (Forall (λ k, 0 < k)%nat ks →
     (length (contents lks') ≤ length (contents lks) - length ks)%nat).
Proof.
  revert b h lks. induction ks as [|k ks IH]; intros b h lks Hch.
  { exists b, h, lks, []. split_and!; [done..|]. cbn. lia. }
  destruct (Read_spec b h lks k Hch) as (b1 & h1 & lks1 & r & e & HR & Hch1 & Hc1 & He & Hpr).
  destruct (IH b1 h1 lks1 Hch1) as (b2 & h2 & lks2 & out & HRs & Hch2 & Hc2 & Hlen).
  exists b2, h2, lks2, (r :: out). cbn [Reads]. rewrite HR. cbn [mbind option_bind].
  rewrite HRs. cbn [mbind option_bind fst].
  split_and!; [done..| |].
  - cbn [concat]. by rewrite Hc1, Hc2, app_assoc.
  - intros [Hk Hks]%Forall_cons. specialize (Hlen Hks). cbn [length].
    destruct (decide (lks = [])) as [->|Hne].
    + destruct lks1; [|apply (f_equal length) in Hc1; rewrite length_app in Hc1;
        cbn in Hc1; destruct Hch1 as (_ & _ & Hf & _);
        apply Forall_cons in Hf as [[Hf _] _]; unfold contents in Hc1; cbn in Hc1;
        rewrite length_app in Hc1; destruct (body p.2); [done|cbn in Hc1; lia]].
      cbn in *. lia.
    + specialize (Hpr Hk Hne). rewrite Hc1, length_app.
      destruct r; [done|]. cbn [length]. lia.
Qed.

(** C7. On a fresh buffer of any [Size], zero and negative included, a
    series of writes followed by a series of reads runs without fault; the
    bytes read are, in order, a prefix of the bytes written; they are all of
    them as soon as a further read reports EOF; and EOF is reported once
    there have been as many reads into non-empty buffers as bytes written. *)
Theorem linkedListBuffer_round_trip (size : Z) (ps : list bytes) (ks : list nat) :
  ∃ b h b' h' out,
    Writes (new size).1 ps (new size).2 = Some (b, h) ∧
    Reads b ks h = Some (b', h', out) ∧
    concat out `prefix_of` concat ps ∧
    (∀ k st r, Read b' k h' = Some (st, (r, Some "EOF"%string)) →
               concat out = concat ps) ∧
    (Forall (λ k, 0 < k)%nat ks → (length (concat ps) ≤ length ks)%nat →
     ∀ k, Read b' k h' = Some (b', h', ([], Some "EOF"%string))).
Proof.
  destruct (Writes_spec _ _ [] ps (chained_new size)) as (b & h & lks & HW & Hch & Hc).
  destruct (Reads_spec b h lks ks Hch) as (b' & h' & lks' & out & HR & Hch' & Hc' & Hlen).
  exists b, h, b', h', out. cbn [contents] in Hc. rewrite app_nil_l in Hc.
  change (contents []) with (@nil Byte.byte) in Hc. rewrite Hc in Hc'.
  split_and!; [done|done| | |].
  - exists (contents lks'). by rewrite <- Hc'.
  - intros k st r HRd.
    destruct (Read_spec b' h' lks' k Hch') as (b2 & h2 & lks2 & r2 & e & HR2 & _ & _ & He & _).
    rewrite HRd in HR2. injection HR2 as _ _ <-.
    destruct He as [He _]. rewrite (He ltac:(done)) in Hc'.
    change (contents []) with (@nil Byte.byte) in Hc'. by rewrite app_nil_r in Hc'.
  - intros Hks Hn k. specialize (Hlen Hks). rewrite Hc in Hlen.
    assert (lks' = []) as ->.
    { apply contents_nil_filled; [by destruct Hch' as (_ & _ & ? & _)|].
      apply length_zero_iff_nil. lia. }
    unfold Read. by rewrite (proj2 (chained_nil _ _ _ Hch') eq_refl).
Qed.

End linkedListBuffer_facts.

Lemma linkedListBuffer_round_trip_witness :
  ∃ b h b' h' out,
    linkedListBuffer.Writes (linkedListBuffer.new 0).1
      [String.list_byte_of_string "ab"; String.list_byte_of_string "cde"]
      (linkedListBuffer.new 0).2 = Some (b, h) ∧
    linkedListBuffer.Reads b [4; 4; 4; 4; 4]%nat h = Some (b', h', out) ∧
    concat out =
      concat [String.list_byte_of_string "ab"; String.list_byte_of_string "cde"].
Proof.
  destruct (linkedListBuffer_round_trip 0
              [String.list_byte_of_string "ab"; String.list_byte_of_string "cde"]
              [4; 4; 4; 4; 4]%nat)
    as (b & h & b' & h' & out & HW & HR & _ & Heof & Hend).
  exists b, h, b', h', out. split_and!; [exact HW|exact HR|].
  apply (Heof 1%nat (b', h') []). apply Hend.
  - repeat constructor; lia.
  - cbn. lia.
Defined.

(** ** Runs on concrete inputs *)

Example PathEscape_segment : PathEscape "a b/c?d~e" = "a%20b%2Fc%3Fd~e".
Proof. reflexivity. Qed.

Example sort_Strings_bytewise :
  sort_Strings ["b"; "a"; "B"; "ab"] = ["B"; "a"; "ab"; "b"].
Proof. by vm_compute. Qed.

(** A full run with both captures: the nil custom source [b] has no entry. *)
Example Run_both_captures :
  let r := Collector.Run ok_env (Collector.NewZipCollector ok_env sample_meta both_opt) idle in
  r.2 = None ∧
  entries (history r.1.2) =
    ["meta"; "expvar"; "pprof/heap"; "pprof/goroutine"; "pprof/threadcreate";
     "custom/a"; "pprof/profile"; "pprof/trace"; "pprof/profile-during-trace"] ∧
  cpuOn r.1.2 = false ∧ traceOn r.1.2 = false.
Proof. by vm_compute. Qed.

(** The case left aside by C1: with tracing already enabled elsewhere the
    wrapping CPU capture is started, the trace capture is skipped before
    [stop] could be called, and the run succeeds with the CPU profiler
    still on and an entry [pprof/profile-during-trace] but no
    [pprof/trace]. *)
Example Run_trace_refused_under_profile :
  let r := Collector.Run ok_env (Collector.NewZipCollector ok_env sample_meta both_opt)
             (mkWorld [] false true) in
  r.2 = None ∧
  entries (history r.1.2) =
    ["meta"; "expvar"; "pprof/heap"; "pprof/goroutine"; "pprof/threadcreate";
     "custom/a"; "pprof/profile"; "pprof/profile-during-trace"] ∧
  cpuOn r.1.2 = true.
Proof. by vm_compute. Qed.

(** A CPU profile already running elsewhere is left running, and only the
    trace is captured. *)
Example Run_profile_already_running :
  let r := Collector.Run ok_env (Collector.NewZipCollector ok_env sample_meta both_opt)
             (mkWorld [] true false) in
  r.2 = None ∧
  entries (history r.1.2) =
    ["meta"; "expvar"; "pprof/heap"; "pprof/goroutine"; "pprof/threadcreate";
     "custom/a"; "pprof/trace"] ∧
  cpuOn r.1.2 = true ∧ traceOn r.1.2 = false.
Proof. by vm_compute. Qed.

(** The capture whose header is refused returns the header's error, and
    the CPU profiler it started is not stopped. *)
Example addCPUProfile_header_refused :
  let r := Collector.addCPUProfile header_fails_env "pprof/profile"
             (Collector.NewZipCollector header_fails_env sample_meta no_opt) idle in
  r.2 = Some "zip: write error" ∧
  history r.1 = [EvStart CPU None; EvHeader "pprof/profile" (Some "zip: write error")] ∧
  cpuOn r.1 = true.
Proof. by vm_compute. Qed.

(** A budget of 3 bytes over writes of 2, 2 and 1 bytes: the callback
    fires at the second write, and all bytes reach the buffer. *)
Example limitTriggerWriter_fires_at_second_write :
  let ps := [String.list_byte_of_string "ab"; String.list_byte_of_string "cd";
             String.list_byte_of_string "e"] in
  let run k := limitTriggerWriter.Writes
                 (limitTriggerWriter.armed (limitTriggerWriter.bufWriter 10) 3)
                 (take k ps) ([], 0%nat) in
  ((run 0%nat).1.2.2, (run 1%nat).1.2.2, (run 2%nat).1.2.2, (run 3%nat).1.2.2)
    = (0, 0, 1, 1)%nat ∧
  (run 3%nat).1.2.1 = String.list_byte_of_string "abcde".
Proof. by vm_compute. Qed.

(** Chunks of 4 bytes, reads of 3: the eleven bytes come back in order,
    and the buffer is drained by the fourth read. *)
Example linkedListBuffer_chunks_of_four :
  linkedListBuffer.written_then_read 4
    [String.list_byte_of_string "hello"; []; String.list_byte_of_string " world"]
    [3; 3; 3; 3; 3; 3]%nat
  = Some (String.list_byte_of_string <$> ["hel"; "l"; "o w"; "o"; "rld"; ""], true).
Proof. by vm_compute. Qed.

(** The first iteration asks for no capture even when a trace is due. *)
Example options_first_iteration :
  fst <$> runner.options 0 (runner.mk (mkRand (λ _, 41) 0) 0)
  = Some (mkArchiveOptions 0 1000000 0 10000000 ∅).
Proof. by vm_compute. Qed.

Example options_trace_due :
  runner.options 7 (runner.mk (mkRand (λ _, 141) 0) 7)
  = Some (mkArchiveOptions (5 * Second) 1000000 Second 10000000 ∅,
          runner.mk (mkRand (λ _, 141) 1) 49).
Proof. by vm_compute. Qed.

(** * Further properties *)

(** ** The linked-list buffer under any series of calls *)

Section linkedListBuffer_calls.
Import linkedListBuffer.

(** Any series of calls on a chained buffer runs without fault and keeps
    it chained; what was read, followed by what is left, is what was there
    followed by what was written. *)
Lemma calls_spec b h lks cs :
  chained b h lks →
  ∃ b' h' lks' out,
    calls b cs h = Some (b', h', out) ∧
    chained b' h' lks' ∧
    Size b' = Size b ∧
    concat out ++ contents lks' = contents lks ++ written_by cs.
Proof.
  revert b h lks. induction cs as [|[p|k] cs IH]; intros b h lks Hch.
  - exists b, h, lks, []. by rewrite app_nil_r.
  - destruct (Write_spec b h lks p Hch) as (b1 & h1 & lks1 & HW & Hch1 & Hc1 & Hs1).
    destruct (IH b1 h1 lks1 Hch1) as (b2 & h2 & lks2 & out & HC & Hch2 & Hs2 & Hc2).
    exists b2, h2, lks2, out. cbn [calls written_by]. rewrite HW. cbn [mbind option_bind].
    split_and!; [done|done|congruence|]. by rewrite Hc2, Hc1, app_assoc.
  - destruct (Read_spec b h lks k Hch) as (b1 & h1 & lks1 & r & e & HR & Hch1 & Hc1 & _).
    destruct (IH b1 h1 lks1 Hch1) as (b2 & h2 & lks2 & out & HC & Hch2 & Hs2 & Hc2).
    exists b2, h2, lks2, (r :: out). cbn [calls written_by]. rewrite HR.
    cbn [mbind option_bind]. rewrite HC. cbn [mbind option_bind fst].
    split_and!; [done|done| |].
    + rewrite Hs2. unfold Read in HR. destruct (head b) as [l|]; [|by injection HR as <-].
      destruct (h !! l); [|done]. cbn in HR. case_bool_decide; by injection HR as <-.
    + cbn [concat]. by rewrite <- app_assoc, Hc2, Hc1, app_assoc.
Qed.

(** X1. A fresh buffer of any [Size] takes any series of [Write] and
    [Read] calls, in any order, without fault. What the reads returned is
    the beginning of what was written, in order, and reading on until
    enough non-empty reads were made returns exactly the rest. *)
Theorem linkedListBuffer_is_fifo (size : Z) (cs : list call) (ks : list nat) :
  ∃ b h out b' h' out',
    calls (new size).1 cs (new size).2 = Some (b, h, out) ∧
    concat out `prefix_of` written_by cs ∧
    Reads b ks h = Some (b', h', out') ∧
    (concat out ++ concat out') `prefix_of` written_by cs ∧
    (Forall (λ k, 0 < k)%nat ks → (length (written_by cs) ≤ length ks)%nat →
     concat out ++ concat out' = written_by cs).
Proof.
  destruct (calls_spec _ _ [] cs (chained_new size))
    as (b & h & lks & out & HC & Hch & _ & Hc).
  destruct (Reads_spec b h lks ks Hch) as (b' & h' & lks' & out' & HR & Hch' & Hc' & Hlen).
  exists b, h, out, b', h', out'. change (contents []) with (@nil Byte.byte) in Hc.
  rewrite app_nil_l in Hc. split_and!; [done| |done| |].
  - exists (contents lks). by rewrite Hc.
  - exists (contents lks'). by rewrite <- Hc, Hc', app_assoc.
  - intros Hks Hn. specialize (Hlen Hks).
    assert (length (contents lks) ≤ length (written_by cs))%nat as Hle.
    { rewrite <- Hc, length_app. lia. }
    assert (contents lks' = []) as Hnil by (apply length_zero_iff_nil; lia).
    by rewrite <- Hc, Hc', Hnil, app_nil_r.
Qed.

(** X2. After any series of calls on a fresh buffer, the links reached
    from [head] by [next] end in nil, are all different, each holds at
    least one byte and no more than its capacity, and [tail] is the last of
    them. *)
Theorem linkedListBuffer_stays_chained (size : Z) (cs : list call) :
  ∃ b h out lks,
    calls (new size).1 cs (new size).2 = Some (b, h, out) ∧
    chained b h lks ∧
    (head b = None ↔ lks = []).
Proof.
  destruct (calls_spec _ _ [] cs (chained_new size))
    as (b & h & lks & out & HC & Hch & _ & _).
  exists b, h, out, lks. split_and!; [done|done|]. by apply (chained_nil b h lks).
Qed.

Lemma Read_length b k h b' h' r e :
  Read b k h = Some (b', h', (r, e)) → (length r ≤ k)%nat.
Proof.
  unfold Read. destruct (head b) as [l|]; [|intros [= <- <- <- <-]; cbn; lia].
  destruct (h !! l); [|done]. cbn [mbind option_bind].
  intros [= _ _ <- _]. rewrite length_take. lia.
Qed.

(** X3. After any series of calls on a fresh buffer, a [Read] into a
    buffer of length [k] returns at most [k] bytes; it reports EOF, and
    then no byte, exactly when every byte written has been read; and if
    bytes are left and [k] is positive it returns at least one. *)
Theorem linkedListBuffer_Read_protocol (size : Z) (cs : list call) (k : nat) :
  ∃ b h out b' h' r e,
    calls (new size).1 cs (new size).2 = Some (b, h, out) ∧
    Read b k h = Some (b', h', (r, e)) ∧
    (length r ≤ k)%nat ∧
    (e = Some "EOF"%string ↔ concat out = written_by cs) ∧
    (e = None ↔ concat out ≠ written_by cs) ∧
    (e ≠ None → r = [] ∧ b' = b ∧ h' = h) ∧
    (e = None → (0 < k)%nat → r ≠ []).
Proof.
  destruct (calls_spec _ _ [] cs (chained_new size))
    as (b & h & lks & out & HC & Hch & _ & Hc).
  change (contents []) with (@nil Byte.byte) in Hc. rewrite app_nil_l in Hc.
  assert (concat out = written_by cs ↔ lks = []) as Hdr.
  { split.
    - intros Heq. rewrite <- Heq in Hc. apply contents_nil_filled;
        [by destruct Hch as (_ & _ & ? & _)|].
      apply (app_inv_head (concat out)). by rewrite app_nil_r.
    - intros ->. change (contents []) with (@nil Byte.byte) in Hc.
      by rewrite app_nil_r in Hc. }
  destruct (decide (lks = [])) as [->|Hne].
  - pose proof (proj2 (chained_nil _ _ _ Hch) eq_refl) as Hhd.
    exists b, h, out, b, h, [], (Some "EOF"%string). unfold Read. rewrite Hhd.
    split_and!; [done|done|cbn; lia| | |done|done].
    + split; [intros _; by apply Hdr|done].
    + split; [done|]. intros Hn. destruct Hn. by apply Hdr.
  - destruct (Read_spec b h lks k Hch) as (b' & h' & lks' & r & e & HR & _ & _ & He & Hpr).
    assert (e = None) as ->.
    { destruct e as [x|]; [|done]. destruct Hne. apply He. done. }
    exists b, h, out, b', h', r, None.
    split_and!; [done|done|by eapply Read_length| | |done|].
    + split; [done|]. intros Heq. destruct Hne. by apply Hdr.
    + split; [|done]. intros _ Heq. destruct Hne. by apply Hdr.
    + intros _ Hk. by apply Hpr.
Qed.

(** A link within the capacity [sz]. *)
Local Abbreviation within sz := (λ lk : bufferLink,
  (length (body lk) ≤ body_cap lk)%nat ∧ (body_cap lk ≤ sz)%nat).

Lemma Write_loop_within fuel b h p b' h' :
  Forall (within (chunk_size b)) h →
  Write_loop fuel b h p = Some (b', h') →
  Forall (within (chunk_size b)) h' ∧ Size b' = Size b.
Proof.
  revert b h p. induction fuel as [|fuel IH]; intros b h p Hh; destruct p as [|c p];
    cbn [Write_loop]; try (by intros [= <- <-]); try done.
  destruct (tail b) as [tl|]; [|done]. cbn [mbind option_bind].
  destruct (h !! tl) as [lk|] eqn:Hlk; [|done]. cbn [mbind option_bind].
  pose proof (Forall_lookup_1 _ _ _ _ Hh Hlk) as [Hlen Hcap].
  set (q := c :: p). set (n := ((body_cap lk - length (body lk)) `min` length q)%nat).
  assert (Forall (within (chunk_size b))
            (<[tl := mkLink (next lk) (body lk ++ take n q) (body_cap lk)]> h)) as Hh1.
  { apply Forall_insert; [done|]. cbn [body body_cap].
    rewrite length_app, length_take. lia. }
  case_bool_decide.
  - unfold newLink.
    destruct ((_ ++ [_]) !! tl) as [lk'|] eqn:Hlk'; [|done]. cbn [mbind option_bind].
    intros HW. apply IH in HW; [done|]. cbn [chunk_size Size].
    assert (Forall (within (chunk_size b))
              (<[tl := mkLink (next lk) (body lk ++ take n q) (body_cap lk)]> h ++
               [mkLink None [] (chunk_size b)])) as Hh2.
    { apply Forall_app. split; [done|]. constructor; [|done]. cbn. lia. }
    apply Forall_insert; [done|]. by apply (Forall_lookup_1 _ _ _ _ Hh2 Hlk').
  - intros HW. by apply IH in HW.
Qed.

Lemma Write_within b p h b' h' r :
  Forall (within (chunk_size b)) h →
  Write b p h = Some (b', h', r) →
  Forall (within (chunk_size b)) h' ∧ Size b' = Size b.
Proof.
  intros Hh. unfold Write. case_bool_decide.
  - unfold newLink.
    destruct (Write_loop _ _ _ _) as [[b1 h1]|] eqn:HW; [|done]. cbn [mbind option_bind].
    intros [= <- <- _]. apply Write_loop_within in HW; [done|].
    apply Forall_app. split; [done|]. constructor; [|done]. cbn.
    unfold chunk_size. cbn [Size]. lia.
  - destruct (Write_loop _ _ _ _) as [[b1 h1]|] eqn:HW; [|done]. cbn [mbind option_bind].
    intros [= <- <- _]. by apply Write_loop_within in HW.
Qed.

Lemma Read_within b k h b' h' r :
  Forall (within (chunk_size b)) h →
  Read b k h = Some (b', h', r) →
  Forall (within (chunk_size b)) h' ∧ Size b' = Size b.
Proof.
  intros Hh. unfold Read. destruct (head b) as [hd|]; [|by intros [= <- <- _]].
  destruct (h !! hd) as [lk|] eqn:Hlk; [|done]. cbn [mbind option_bind].
  pose proof (Forall_lookup_1 _ _ _ _ Hh Hlk) as [Hlen Hcap].
  intros [= <- <- _]. split; [|by case_bool_decide].
  apply Forall_insert; [done|]. cbn [body body_cap]. rewrite length_drop. lia.
Qed.

Lemma calls_within b cs h b' h' out :
  Forall (within (chunk_size b)) h →
  calls b cs h = Some (b', h', out) →
  Forall (within (chunk_size b)) h' ∧ Size b' = Size b.
Proof.
  revert b h out. induction cs as [|[p|k] cs IH]; intros b h out Hh; cbn [calls].
  - by intros [= <- <- _].
  - destruct (Write b p h) as [[[b1 h1] r]|] eqn:HW; [|done]. cbn [mbind option_bind].
    intros HC. apply Write_within in HW as [Hh1 Hs1]; [|done].
    assert (chunk_size b1 = chunk_size b) as Hcs by (unfold chunk_size; by rewrite Hs1).
    apply IH in HC; [|by rewrite Hcs]. rewrite Hcs in HC. destruct HC. split; congruence.
  - destruct (Read b k h) as [[[b1 h1] r]|] eqn:HR; [|done]. cbn [mbind option_bind].
    destruct (calls b1 cs h1) as [[[b2 h2] out2]|] eqn:HC; [|done].
    cbn [mbind option_bind]. intros [= <- <- _].
    apply Read_within in HR as [Hh1 Hs1]; [|done].
    assert (chunk_size b1 = chunk_size b) as Hcs by (unfold chunk_size; by rewrite Hs1).
    apply IH in HC; [|by rewrite Hcs]. rewrite Hcs in HC. destruct HC. split; congruence.
Qed.

(** X4. Whatever calls were made on a fresh buffer, no link of the store
    holds more bytes than its capacity, and no capacity exceeds the chunk
    size: [Size], or 16384 when [Size] is zero or negative. *)
Theorem linkedListBuffer_chunks_are_bounded (size : Z) (cs : list call) :
  ∃ b h out,
    calls (new size).1 cs (new size).2 = Some (b, h, out) ∧
    Size b = size ∧
    chunk_size b = Z.to_nat (if bool_decide (size ≤ 0) then 16384 else size) ∧
    Forall (λ lk, (length (body lk) ≤ body_cap lk)%nat ∧
                  (body_cap lk ≤ chunk_size b)%nat) h.
Proof.
  destruct (calls_spec _ _ [] cs (chained_new size))
    as (b & h & lks & out & HC & _ & Hs & _).
  exists b, h, out. cbn in Hs.
  destruct (calls_within _ _ _ _ _ _ (Forall_nil_2 _) HC) as [Hh _].
  split_and!; [done|done|by unfold chunk_size; rewrite Hs|].
  assert (chunk_size b = chunk_size (new size).1) as -> by (unfold chunk_size; by rewrite Hs).
  done.
Qed.

End linkedListBuffer_calls.

(** ** The size-limit trigger without assumptions *)

Section limitTriggerWriter_any.
Import limitTriggerWriter.
Context {S : Type} (w : Writer S).

Lemma Writes_disarmed_fn rem ps s c :
  fn (Writes (mk (lift w) None rem) ps (s, c)).1.1 = None.
Proof.
  revert rem s c. induction ps as [|p ps IH]; intros rem s c; [done|].
  rewrite Writes_cons, Write_lift. cbn [fst snd]. apply IH.
Qed.

(** While the callback is set it has not run; once it has run it is
    cleared and does not run again. *)
Lemma Writes_armed_once rem ps s c :
  let r := Writes (mk (lift w) (Some tick) rem) ps (s, c) in
  (fn r.1.1 = None ∧ r.1.2.2 = Datatypes.S c) ∨
  (fn r.1.1 = Some tick ∧ r.1.2.2 = c).
Proof.
  revert rem s c. induction ps as [|p ps IH]; intros rem s c; [by right|].
  cbn zeta. rewrite Writes_cons, Write_lift. cbn zeta. case_bool_decide; cbn [fst snd].
  - left. unfold tick. cbn [fst snd]. by rewrite Writes_disarmed_fn, Writes_disarmed.
  - apply IH.
Qed.

(** X5. For any wrapped writer, also one that breaks the [io.Writer]
    contract, any budget and any writes, the trigger hands every write to
    the wrapped writer and returns its results unchanged, and invokes the
    callback at most once: it has run exactly if the [fn] field is nil
    afterwards. A trigger built without a callback never invokes
    anything. *)
Theorem limitTriggerWriter_is_transparent (targetSize : Z) (ps : list bytes) (s : S) :
  let r := Writes (armed w targetSize) ps (s, 0%nat) in
  let r0 := Writes (mk (lift w) None targetSize) ps (s, 0%nat) in
  (r.1.2.1, r.2) = direct w ps s ∧
  (r.1.2.2 ≤ 1)%nat ∧
  (fn r.1.1 = None ↔ r.1.2.2 = 1%nat) ∧
  (r0.1.2.1, r0.2) = direct w ps s ∧
  r0.1.2.2 = 0%nat.
Proof.
  cbn zeta. split_and!.
  - apply Writes_transparent. by left.
  - unfold armed.
    destruct (Writes_armed_once targetSize ps s 0) as [[_ ->]|[_ ->]]; lia.
  - unfold armed.
    destruct (Writes_armed_once targetSize ps s 0) as [[-> ->]|[-> ->]]; by split.
  - apply Writes_transparent. by right.
  - apply Writes_disarmed.
Qed.

End limitTriggerWriter_any.

(** ** The collector and the profilers of the process *)

Section Collector_profilers.
Import Collector.
Context (env : Env) (meta : ArchiveMeta) (opt : ArchiveOptions).

Local Abbreviation Z_ := (zipped env meta opt).


Lemma addCPUProfile_keeps name e w :
  let r := addCPUProfile env name (Z_ e) w in
  traceOn r.1 = traceOn w ∧ (cpuOn w = true → cpuOn r.1 = true).
Proof.
  cbn zeta. unfold addCPUProfile.
  pose proof (addTimeBasedProfile_zip env meta opt name
    (CPUProfileByteTarget (Collector.opt (Z_ e)))
    (plain_start pprof_StartCPUProfile) (plain_stop pprof_StopCPUProfile) e tt w) as H.
  cbn zeta in H. set (r := addTimeBasedProfile _ _ _ _ _ _ _ _) in *.
  unfold plain_start, plain_stop, pprof_StartCPUProfile in H.
  destruct (cpuOn w) eqn:Hcpu; cbn [fst snd] in H.
  { rewrite H. cbn. by rewrite Hcpu. }
  cbn [emit history] in H.
  destruct (zip_CreateHeader env _ name) as [x|].
  { by rewrite H. }
  destruct H as (d & copyErr & Hq & H). cbn zeta in H. by rewrite H.
Qed.

(** The same for the trace capture, in both of its forms. *)
Lemma addExecutionTrace_keeps name profileName e w :
  let r := addExecutionTrace env name profileName (Z_ e) w in
  (cpuOn w = true → cpuOn r.1 = true) ∧
  (traceOn w = true → traceOn r.1 = true) ∧
  (r.2 = None → ¬ trace_refused_under_profile opt w →
   0 < ExecutionTraceDuration opt →
   cpuOn r.1 = cpuOn w ∧ traceOn r.1 = traceOn w).
Proof.
  cbn zeta. unfold addExecutionTrace, addExecutionTrace_capture.
  change (Collector.opt (Z_ e)) with opt. unfold trace_refused_under_profile.
  case_bool_decide as Hcpd.
  - pose proof (addTimeBasedProfile_zip env meta opt name (ExecutionTraceByteTarget opt)
      addExecutionTrace_start (addExecutionTrace_stop env) e None w) as H.
    cbn zeta in H. set (r := addTimeBasedProfile _ _ _ _ _ _ _ _) in *.
    unfold addExecutionTrace_start, pprof_StartCPUProfile, trace_Start in H.
    destruct (cpuOn w) eqn:Hcpu, (traceOn w) eqn:Htr;
      cbn [fst snd emit history cpuOn traceOn] in H; rewrite ?Hcpu, ?Htr in H;
      cbn [fst snd emit history cpuOn traceOn negb] in H.
    + rewrite H. hist. by rewrite Hcpu, Htr.
    + destruct (zip_CreateHeader env _ name) as [x|].
      { rewrite H. hist. done. }
      destruct H as (d & copyErr & Hq & H). cbn zeta in H. rewrite H. clear H.
      unfold addExecutionTrace_stop. hist.
      destruct copyErr; [|destruct (pipe_Close env _)]; by hist.
    + rewrite H. hist.
      destruct (zip_CreateHeader env _ profileName) as [x|]; hist.
      { split_and!; [done|done|]. intros _ Hn Ht. destruct Hn. done. }
      unfold io_Copy_Buffer. rewrite bool_decide_eq_false_2
        by (unfold len; cbn [length]; lia). hist.
      split_and!; [done|done|]. intros _ Hn Ht. destruct Hn. done.
    + destruct (zip_CreateHeader env _ name) as [x|].
      { rewrite H. hist.
        destruct (zip_CreateHeader env _ profileName) as [y|]; hist; [done|].
        unfold io_Copy_Buffer. rewrite bool_decide_eq_false_2
          by (unfold len; cbn [length]; lia). by hist. }
      destruct H as (d & copyErr & Hq & H). cbn zeta in H. rewrite H. clear H.
      unfold addExecutionTrace_stop. hist.
      set (buf := cpu_Flush env _). set (cl := pipe_Close env _).
      set (hdr := zip_CreateHeader env _ profileName).
      destruct hdr as [y|]; hist.
      { destruct copyErr; [|destruct cl]; by hist. }
      match goal with |- context [io_Copy_Buffer _ _ ?w0] =>
        destruct (io_Copy_Buffer_zip env buf w0) as (d2 & Hd2 & Hq2) end.
      destruct (io_Copy_Buffer _ _ _) as [w4 perr]. cbn [fst] in Hd2. subst w4.
      destruct copyErr; [|destruct cl]; by hist.
  - pose proof (addTimeBasedProfile_zip env meta opt name (ExecutionTraceByteTarget opt)
      (plain_start trace_Start) (plain_stop trace_Stop) e (@None bytes) w) as H.
    cbn zeta in H. set (r := addTimeBasedProfile _ _ _ _ _ _ _ _) in *.
    unfold plain_start, plain_stop, trace_Start in H.
    destruct (traceOn w) eqn:Htr; cbn [fst snd emit history] in H.
    + rewrite H. hist. by rewrite Htr.
    + destruct (zip_CreateHeader env _ name) as [x|].
      { rewrite H. hist. done. }
      destruct H as (d & copyErr & Hq & H). cbn zeta in H. rewrite H. clear H.
      hist. destruct copyErr; [|destruct (pipe_Close env _)]; by hist.
Qed.

(** Every run: the events before [finish] hold no [finish]; the run either
    fails before [finish] or ends with it and returns its result; captures
    running before are still running. *)
Lemma Run_any w :
  let r := Run env (Z_ None) w in
  ∃ d, finishes d = 0%nat ∧
       (cpuOn w = true → cpuOn r.1.2 = true) ∧
       (traceOn w = true → traceOn r.1.2 = true) ∧
       ((r.2 ≠ None ∧ history r.1.2 = history w ++ d) ∨
        history r.1.2 = history w ++ d ++ [EvFinish r.2]).
Proof.
  cbn zeta. unfold Run. rewrite Run_static_adds.
  change (statics _ _ _) with (statics env meta opt).
  destruct (adds_zip env meta opt (statics env meta opt) None w) as (e1 & d1 & H1 & F1 & _).
  rewrite H1. destruct e1 as [x|].
  { exists d1. cbn. split_and!; [done..|]. by left. }
  change (addErr (Z_ None)) with (@None error). change (Collector.opt (Z_ None)) with opt.
  assert (∃ w2 d2 err2,
    (if bool_decide (0 < CPUProfileDuration opt)
     then addCPUProfile env "pprof/profile" (Z_ None) (grow w d1)
     else (grow w d1, None)) = (w2, err2) ∧
    history w2 = history w ++ d1 ++ d2 ∧ finishes d2 = 0%nat ∧
    traceOn w2 = traceOn w ∧ (cpuOn w = true → cpuOn w2 = true))
    as (w2 & d2 & err2 & H2 & Hh2 & F2 & T2 & C2).
  { destruct (bool_decide (0 < CPUProfileDuration opt)).
    - destruct (addCPUProfile_zip env meta opt "pprof/profile" None (grow w d1))
        as (d2 & Hh & F & T & _).
      destruct (addCPUProfile_keeps "pprof/profile" None (grow w d1)) as (Kt & Kc).
      destruct (addCPUProfile _ _ _ _) as [w2 err2]. exists w2, d2, err2.
      cbn [fst snd grow history cpuOn traceOn] in *. rewrite <- app_assoc in Hh.
      done.
    - exists (grow w d1), [], None. cbn. by rewrite app_nil_r. }
  rewrite H2. destruct err2 as [x|].
  { exists (d1 ++ d2). cbn. rewrite finishes_app, F1, F2.
    split_and!; [done|done|by rewrite T2|]. left. by rewrite Hh2, app_assoc. }
  assert (∃ w3 d3 err3,
    (if bool_decide (0 < ExecutionTraceDuration opt)
     then addExecutionTrace env "pprof/trace" "pprof/profile-during-trace" (Z_ None) w2
     else (w2, None)) = (w3, err3) ∧
    history w3 = history w ++ d1 ++ d2 ++ d3 ∧ finishes d3 = 0%nat ∧
    (cpuOn w = true → cpuOn w3 = true) ∧ (traceOn w = true → traceOn w3 = true))
    as (w3 & d3 & err3 & H3 & Hh3 & F3 & C3 & T3).
  { destruct (bool_decide (0 < ExecutionTraceDuration opt)).
    - destruct (addExecutionTrace_zip env meta opt "pprof/trace"
                  "pprof/profile-during-trace" None w2) as (d3 & Hh & F & _).
      destruct (addExecutionTrace_keeps "pprof/trace" "pprof/profile-during-trace"
                  None w2) as (Kc & Kt & _).
      destruct (addExecutionTrace _ _ _ _ _) as [w3 err3]. exists w3, d3, err3.
      cbn [fst snd] in *. rewrite Hh, Hh2, <- !app_assoc.
      split_and!; [done|done|done|by auto|]. rewrite T2 in Kt. done.
    - exists w2, [], None. rewrite Hh2, !app_nil_r. split_and!; [done..|].
      by rewrite T2. }
  rewrite H3. destruct err3 as [x|].
  { exists (d1 ++ d2 ++ d3). cbn. rewrite !finishes_app, F1, F2, F3.
    split_and!; [done|done|done|]. left. by rewrite Hh3. }
  cbn [finish zipped set_addErr NewZipCollector fst snd].
  exists (d1 ++ d2 ++ d3). cbn [fst snd emit history cpuOn traceOn].
  rewrite !finishes_app, F1, F2, F3, Hh3, <- ?app_assoc.
  split_and!; [done|done|done|]. by right.
Qed.

(** A run that succeeds, and in which the tracer did not refuse to start
    under a fresh CPU profile, leaves both profilers as it found them. *)
Lemma Run_restores w :
  let r := Run env (Z_ None) w in
  r.2 = None → ¬ trace_refused_under_profile opt w →
  cpuOn r.1.2 = cpuOn w ∧ traceOn r.1.2 = traceOn w.
Proof.
  cbn zeta. unfold Run. rewrite Run_static_adds.
  change (statics _ _ _) with (statics env meta opt).
  destruct (adds_zip env meta opt (statics env meta opt) None w) as (e1 & d1 & H1 & _).
  rewrite H1. destruct e1 as [x|]; [done|].
  change (addErr (Z_ None)) with (@None error). change (Collector.opt (Z_ None)) with opt.
  assert (∃ w2 err2,
    (if bool_decide (0 < CPUProfileDuration opt)
     then addCPUProfile env "pprof/profile" (Z_ None) (grow w d1)
     else (grow w d1, None)) = (w2, err2) ∧
    traceOn w2 = traceOn w ∧ (err2 = None → cpuOn w2 = cpuOn w))
    as (w2 & err2 & H2 & T2 & C2).
  { destruct (bool_decide (0 < CPUProfileDuration opt)).
    - destruct (addCPUProfile_zip env meta opt "pprof/profile" None (grow w d1))
        as (d2 & _ & _ & T & E).
      destruct (addCPUProfile _ _ _ _) as [w2 err2]. exists w2, err2.
      split_and!; [done|done|]. intros He. by destruct (E He).
    - by exists (grow w d1), None. }
  rewrite H2. destruct err2 as [x|]; [done|]. specialize (C2 eq_refl).
  destruct (bool_decide (0 < ExecutionTraceDuration opt)) eqn:Ht.
  - apply bool_decide_eq_true_1 in Ht.
    destruct (addExecutionTrace_keeps "pprof/trace" "pprof/profile-during-trace"
                None w2) as (_ & _ & K).
    destruct (addExecutionTrace _ _ _ _ _) as [w3 err3]. cbn [fst snd] in K.
    destruct err3 as [x|]; [done|]. cbn [finish zipped set_addErr NewZipCollector fst snd].
    intros _ Hn. cbn [emit cpuOn traceOn]. rewrite <- C2, <- T2. apply K; [done| |done].
    unfold trace_refused_under_profile in *. by rewrite C2, T2.
  - cbn [finish zipped set_addErr NewZipCollector fst snd emit cpuOn traceOn]. done.
Qed.

End Collector_profilers.

(** X7. [Run] never stops a capture it has not started: a CPU profile or a
    trace that was running when the run began is running when it ends,
    whatever the run returns. *)
Theorem Run_never_stops_a_running_capture
    (env : Env) (meta : ArchiveMeta) (opt : ArchiveOptions) (w : World) :
  let r := Collector.Run env (Collector.NewZipCollector env meta opt) w in
  (cpuOn w = true → cpuOn r.1.2 = true) ∧
  (traceOn w = true → traceOn r.1.2 = true).
Proof.
  cbn zeta. change (Collector.NewZipCollector env meta opt) with (Collector.zipped env meta opt None).
  destruct (Run_any env meta opt w) as (d & _ & Hc & Ht & _). done.
Qed.

(** X8. In every run [finish] is called at most once. Either it is not
    called and [Run] returns an error, or it is the last thing the run does
    and [Run] returns what [finish] returned. *)
Theorem Run_returns_what_finish_returns
    (env : Env) (meta : ArchiveMeta) (opt : ArchiveOptions) (w : World) :
  let r := Collector.Run env (Collector.NewZipCollector env meta opt) w in
  (finishes (since w r.1.2) = 0%nat ∧ r.2 ≠ None) ∨
  (finishes (since w r.1.2) = 1%nat ∧ last (history r.1.2) = Some (EvFinish r.2)).
Proof.
  cbn zeta. change (Collector.NewZipCollector env meta opt) with (Collector.zipped env meta opt None).
  destruct (Run_any env meta opt w) as (d & Hf & _ & _ & [[Hr Hh]|Hh]).
  - left. by rewrite (since_app _ _ _ Hh).
  - right. rewrite (since_app _ _ _ Hh), Hh, finishes_app, Hf.
    split; [done|]. by rewrite app_assoc, last_snoc.
Qed.

(** X9. A run that returns nil leaves the CPU profiler and the tracer as it
    found them, unless the tracer was already on and a CPU profile and a
    trace are both asked for. *)
Theorem Run_restores_the_profilers
    (env : Env) (meta : ArchiveMeta) (opt : ArchiveOptions) (w : World) :
  let r := Collector.Run env (Collector.NewZipCollector env meta opt) w in
  r.2 = None → ¬ trace_refused_under_profile opt w →
  cpuOn r.1.2 = cpuOn w ∧ traceOn r.1.2 = traceOn w.
Proof.
  cbn zeta. change (Collector.NewZipCollector env meta opt) with (Collector.zipped env meta opt None).
  apply Run_restores.
Qed.

Lemma Run_restores_the_profilers_witness :
  cpuOn (Collector.Run ok_env
           (Collector.NewZipCollector ok_env sample_meta both_opt) idle).1.2 = cpuOn idle ∧
  traceOn (Collector.Run ok_env
             (Collector.NewZipCollector ok_env sample_meta both_opt) idle).1.2 = traceOn idle.
Proof.
  refine (Run_restores_the_profilers ok_env sample_meta both_opt idle _ _).
  - vm_compute. reflexivity.
  - intros (_ & _ & _ & H). discriminate H.
Defined.

(** ** The expvar source *)

Section expvarStyleSource_facts.
Import Collector.
Context (env : Env) (meta : ArchiveMeta) (opt : ArchiveOptions).

Local Abbreviation Z_ := (zipped env meta opt).

Lemma list_byte_of_string_app (a b : string) :
  String.list_byte_of_string (a +:+ b) =
  String.list_byte_of_string a ++ String.list_byte_of_string b.
Proof.
  unfold String.list_byte_of_string.
  induction a as [|c a IH]; [done|].
  change (String c a +:+ b) with (String c (a +:+ b)).
  cbn [String.list_ascii_of_string map]. by rewrite IH.
Qed.

Lemma written_app h1 h2 : written (h1 ++ h2) = written h1 ++ written h2.
Proof.
  induction h1 as [|[] h1 IH]; cbn; try done. by rewrite IH, app_assoc.
Qed.

Lemma expvar_rest_page q kvs :
  String.list_byte_of_string ("{" +:+ nl) ++ expvar_rest q "" kvs =
  String.list_byte_of_string (expvar_page q kvs).
Proof.
  unfold expvar_page. rewrite !list_byte_of_string_app, <- !app_assoc. do 2 f_equal.
  destruct kvs as [|kv kvs]; [done|].
  assert (∀ p, expvar_rest q p (kv :: kvs) =
    String.list_byte_of_string p ++
    String.list_byte_of_string
      (String.concat ("," +:+ nl) ((λ kv, q kv.1 +:+ ": " +:+ kv.2) <$> kv :: kvs)) ++
    String.list_byte_of_string (nl +:+ "}" +:+ nl)) as H.
  { revert kv. induction kvs as [|kv' kvs IH]; intros kv p.
    - cbn [expvar_rest fmap list_fmap String.concat].
      by rewrite !list_byte_of_string_app, <- ?app_assoc.
    - change (expvar_rest q p (kv :: kv' :: kvs)) with
        (String.list_byte_of_string (p +:+ q kv.1 +:+ ": " +:+ kv.2)
         ++ expvar_rest q ("," +:+ nl) (kv' :: kvs)).
      rewrite (IH kv'). cbn [fmap list_fmap String.concat].
      by rewrite !list_byte_of_string_app, <- ?app_assoc. }
  rewrite (H ""%string). by rewrite !list_byte_of_string_app.
Qed.

Lemma expvar_each_zip q prefix kvs err w :
  let r := run_script (expvar_each q prefix kvs err) (zip_entry env) w in
  ∃ d, r = (grow w d, None) ∧
       (err ≠ None → d = []) ∧ ends_at_failed_write d ∧
       ((∀ h p, zip_Write env h p = (len p, None)) → err = None →
        written d = expvar_rest q prefix kvs).
Proof.
  cbn zeta. revert prefix err w. induction kvs as [|kv kvs IH]; intros prefix err w.
  - destruct err as [x|]; cbn.
    { exists []. by rewrite grow_nil. }
    eexists [_]. rewrite emit_grow. split_and!; [done|done| |].
    + by destruct (zip_Write env (history w) _).2.
    + intros Hok _. cbn. rewrite Hok. cbn [fst]. rewrite app_nil_r.
      unfold len. rewrite Z.min_id, Z.max_r, Nat2Z.id by lia. apply firstn_all.
  - destruct err as [x|]; cbn [expvar_each expvar_printf].
    { destruct (IH ("," +:+ nl) (Some x) w) as (d & Hd & He & _).
      exists d. rewrite Hd. split_and!; [done|done| |done].
      rewrite He; done. }
    cbn [run_script]. cbn [zip_entry].
    set (p := String.list_byte_of_string _). set (r := zip_Write env (history w) p).
    set (n := Z.max 0 _).
    destruct (IH ("," +:+ nl) r.2 (emit (EvWrite p n r.2) w)) as (d & Hd & He & Hs & Hw).
    cbn [snd]. rewrite Hd. exists (EvWrite p n r.2 :: d).
    rewrite emit_grow, grow_grow. split_and!; [done|done| |].
    + cbn. destruct r.2 as [x|] eqn:Hr; [by apply He|done].
    + intros Hok _. cbn. rewrite Hw; [|done|by subst r; rewrite Hok]. f_equal.
      subst n r. rewrite Hok. cbn [fst]. unfold len.
      rewrite Z.min_id, Z.max_r, Nat2Z.id by lia. apply firstn_all.
Qed.

Lemma add_expvar_zip name q do w :
  let r := add name (Some (expvarStyleSource q do)) (Z_ None) w in
  match zip_CreateHeader env (history w) name with
  | Some x => r = (Z_ (Some x), emit (EvHeader name (Some x)) w)
  | None =>
      ∃ d, r = (Z_ None, grow w (EvHeader name None :: EvWriteTo name :: d)) ∧
           ends_at_failed_write d ∧
           ((∀ h p, zip_Write env h p = (len p, None)) →
            written d = String.list_byte_of_string (expvar_page q do))
  end.
Proof.
  cbn zeta. unfold add, expvarStyleSource. cbn [WriteTo addErr zipped set_addErr
    NewZipCollector writeFileHeader].
  destruct (zip_CreateHeader env (history w) name) as [x|]; [done|].
  cbn [expvar_printf run_script zip_entry].
  set (w1 := emit (EvWriteTo name) _).
  set (p := String.list_byte_of_string _). set (r := zip_Write env (history w1) p).
  set (n := Z.max 0 _).
  destruct (expvar_each_zip q "" do r.2 (emit (EvWrite p n r.2) w1)) as (d & Hd & He & Hs & Hw).
  cbn [snd]. rewrite Hd. exists (EvWrite p n r.2 :: d).
  subst w1. rewrite !emit_grow, !grow_grow. split_and!; [done| |].
  - cbn. destruct r.2 as [x|] eqn:Hr; [by apply He|done].
  - intros Hok. rewrite <- expvar_rest_page. cbn [written].
    rewrite Hw; [|done|by subst r; rewrite Hok]. f_equal.
    subst n r. rewrite Hok. cbn [fst]. unfold len.
    rewrite Z.min_id, Z.max_r, Nat2Z.id by lia. apply firstn_all.
Qed.

Lemma ends_at_failed_write_spec d d1 p n e d2 :
  ends_at_failed_write d → d = d1 ++ EvWrite p n (Some e) :: d2 → d2 = [].
Proof.
  revert d. induction d1 as [|ev d1 IH]; intros d Hd ->.
  - done.
  - apply (IH (d1 ++ EvWrite p n (Some e) :: d2)); [|done].
    destruct ev as [| |? ? [x|]| | | | | |]; try done.
    cbn in Hd. by destruct d1.
Qed.

End expvarStyleSource_facts.

(** X10. The expvar source swallows the errors of its writes: adding it to
    a zip collector leaves [addErr] nil unless the header of the entry
    cannot be created, whatever the writer answers. After a write that
    failed it writes nothing more. *)
Theorem expvarStyleSource_swallows_write_errors
    (env : Env) (meta : ArchiveMeta) (opt : ArchiveOptions)
    (name : string) (q : string → string) (do : list (string * string)) (w : World) :
  let r := Collector.add name (Some (expvarStyleSource q do))
             (Collector.NewZipCollector env meta opt) w in
  Collector.addErr r.1 = zip_CreateHeader env (history w) name ∧
  (∀ d1 p n e d2, since w r.2 = d1 ++ EvWrite p n (Some e) :: d2 → d2 = []).
Proof.
  cbn zeta. change (Collector.NewZipCollector env meta opt) with (Collector.zipped env meta opt None).
  pose proof (add_expvar_zip env meta opt name q do w) as H. cbn zeta in H.
  destruct (zip_CreateHeader env (history w) name) as [x|].
  - rewrite H. split; [done|]. intros d1 p n e d2. unfold since. cbn.
    rewrite drop_app_length. destruct d1 as [|? [|? ?]]; done.
  - destruct H as (d & -> & Hs & _). split; [done|]. intros d1 p n e d2.
    rewrite (since_app _ _ (EvHeader name None :: EvWriteTo name :: d)) by done.
    apply ends_at_failed_write_spec. done.
Qed.

(** X11. When the header of the entry is created and the writer takes
    every write, the expvar source fills the entry with the page: an
    opening brace, the variables as [key: value] lines separated by commas,
    and a closing brace. *)
Theorem expvarStyleSource_prints_the_page
    (env : Env) (meta : ArchiveMeta) (opt : ArchiveOptions)
    (name : string) (q : string → string) (do : list (string * string)) (w : World) :
  (∀ h p, zip_Write env h p = (len p, None)) →
  zip_CreateHeader env (history w) name = None →
  let r := Collector.add name (Some (expvarStyleSource q do))
             (Collector.NewZipCollector env meta opt) w in
  Collector.addErr r.1 = None ∧
  written (since w r.2) = String.list_byte_of_string (expvar_page q do).
Proof.
  intros Hok Hh. cbn zeta.
  change (Collector.NewZipCollector env meta opt) with (Collector.zipped env meta opt None).
  pose proof (add_expvar_zip env meta opt name q do w) as H. cbn zeta in H.
  rewrite Hh in H. destruct H as (d & -> & Hs & Hw).
  rewrite (since_app _ _ (EvHeader name None :: EvWriteTo name :: d)) by done.
  split; [done|]. by apply Hw.
Qed.

Lemma expvarStyleSource_prints_the_page_witness :
  written (since idle
    (Collector.add "expvar" (Some (expvarStyleSource (λ s, s) [("cmdline", "[]")]))
       (Collector.NewZipCollector ok_env sample_meta no_opt) idle).2) =
  String.list_byte_of_string
    (expvar_page (λ s, s) [("cmdline", "[]")]).
Proof.
  refine (proj2 (expvarStyleSource_prints_the_page ok_env sample_meta no_opt
    "expvar" (λ s, s) [("cmdline", "[]")] idle _ _)).
  - intros h p. reflexivity.
  - reflexivity.
Defined.

(** ** The pump of a capture *)

Section pump_facts.
Import Collector.
Context (env : Env) (meta : ArchiveMeta) (opt : ArchiveOptions).
Hypothesis Hok : ∀ h p, zip_Write env h p = (len p, None).

Lemma cancels_app h1 h2 : cancels (h1 ++ h2) = (cancels h1 + cancels h2)%nat.
Proof. induction h1 as [|[] h1 IH]; cbn; by rewrite ?IH. Qed.

Lemma zip_entry_accepts p w :
  zip_entry env p w = (emit (EvWrite p (len p) None) w, (len p, None)).
Proof.
  unfold zip_entry. rewrite Hok. cbn [fst snd].
  by rewrite Z.min_id, Z.max_r by (unfold len; lia).
Qed.

Lemma written_accepted (p : bytes) : take (Z.to_nat (len p)) p = p.
Proof. unfold len. rewrite Nat2Z.id. apply firstn_all. Qed.

(** The pump behind a size-limit trigger: every chunk reaches the entry,
    and [cancel] is called once if the chunks reach the budget. *)
Lemma io_Copy_limit_accepting src fn rem w :
  Forall (λ p, len p ≤ MaxInt64) src →
  fn = Some cancel ∧ 0 < rem ≤ MaxInt64 ∨ fn = None →
  ∃ d, io_Copy limitTriggerWriter.Write
         (limitTriggerWriter.mk (zip_entry env) fn rem) src w = (grow w d, None) ∧
       written d = concat src ∧
       cancels d = match fn with
                   | Some _ => if bool_decide (rem ≤ len (concat src)) then 1%nat else 0%nat
                   | None => 0%nat
                   end.
Proof.
  intros Hsrc. revert fn rem w.
  induction Hsrc as [|p src Hp Hsrc IH]; intros fn rem w Hfn.
  { exists []. rewrite grow_nil. split_and!; [done|done|].
    destruct Hfn as [[-> Hrem]| ->]; [|done].
    rewrite bool_decide_eq_false_2; [done|]. change (¬ rem ≤ 0). lia. }
  cbn [io_Copy concat]. case_bool_decide as Hlen.
  { assert (p = []) as ->
      by (destruct p; [done|]; unfold len in Hlen; cbn [length] in Hlen; lia).
    cbn [app]. by apply IH. }
  unfold limitTriggerWriter.Write at 1.
  cbn [limitTriggerWriter.wr limitTriggerWriter.fn limitTriggerWriter.remaining].
  rewrite zip_entry_accepts.
  assert (len (p ++ concat src) = len p + len (concat src)) as Hl
    by (unfold len; rewrite length_app; lia).
  assert (0 ≤ len p ∧ 0 ≤ len (concat src)) as [Hp0 Hc0] by (unfold len; lia).
  destruct Hfn as [[-> Hrem]| ->].
  - rewrite (wrap64_small (rem - len p)) by (unfold MaxInt64 in *; lia).
    case_bool_decide as Hr.
    + rewrite bool_decide_eq_false_2 by lia. rewrite bool_decide_eq_true_2 by done.
      destruct (IH None (rem - len p) (cancel (emit (EvWrite p (len p) None) w)))
        as (d & Hd & Hw & Hc); [by right|].
      rewrite Hd. exists (EvWrite p (len p) None :: EvCancel :: d).
      unfold cancel. rewrite !emit_grow, !grow_grow. split_and!; [done| |].
      * cbn. by rewrite written_accepted, Hw.
      * cbn. rewrite Hc, bool_decide_eq_true_2; [done|lia].
    + rewrite bool_decide_eq_false_2 by lia. rewrite bool_decide_eq_true_2 by done.
      destruct (IH (Some cancel) (rem - len p) (emit (EvWrite p (len p) None) w))
        as (d & Hd & Hw & Hc); [left; split; [done|lia]|].
      rewrite Hd. exists (EvWrite p (len p) None :: d).
      rewrite !emit_grow, !grow_grow. split_and!; [done| |].
      * cbn. by rewrite written_accepted, Hw.
      * cbn. rewrite Hc. do 2 case_bool_decide; lia.
  - rewrite bool_decide_eq_false_2 by lia. rewrite bool_decide_eq_true_2 by done.
    destruct (IH None (wrap64 (rem - len p)) (emit (EvWrite p (len p) None) w))
      as (d & Hd & Hw & Hc); [by right|].
    rewrite Hd. exists (EvWrite p (len p) None :: d).
    rewrite !emit_grow, !grow_grow. split_and!; [done| |done].
    cbn. by rewrite written_accepted, Hw.
Qed.

(** The pump without a trigger. *)
Lemma io_Copy_plain_accepting src w :
  ∃ d, io_Copy (plain_Write (zip_entry env)) tt src w = (grow w d, None) ∧
       written d = concat src ∧ cancels d = 0%nat.
Proof.
  revert w. induction src as [|p src IH]; intros w.
  { exists []. by rewrite grow_nil. }
  cbn [io_Copy concat]. case_bool_decide as Hlen.
  { assert (p = []) as ->
      by (destruct p; [done|]; unfold len in Hlen; cbn [length] in Hlen; lia).
    cbn [app]. by apply IH. }
  unfold plain_Write at 1. rewrite zip_entry_accepts.
  assert (0 ≤ len p) by (unfold len; lia).
  rewrite bool_decide_eq_false_2 by lia. rewrite bool_decide_eq_true_2 by done.
  destruct (IH (emit (EvWrite p (len p) None) w)) as (d & Hd & Hw & Hc).
  rewrite Hd. exists (EvWrite p (len p) None :: d).
  rewrite !emit_grow, !grow_grow. split_and!; [done| |done].
  cbn. by rewrite written_accepted, Hw.
Qed.

Lemma addCPUProfile_accepting name w :
  cpuOn w = false →
  zip_CreateHeader env (history w ++ [EvStart CPU None]) name = None →
  let src := pipe_Read env (history w ++ [EvStart CPU None; EvHeader name None]) in
  Forall (λ p, len p ≤ MaxInt64) src →
  CPUProfileByteTarget opt ≤ MaxInt64 →
  let r := addCPUProfile env name (NewZipCollector env meta opt) w in
  written (since w r.1) = concat src ∧
  cancels (since w r.1) =
    (if bool_decide (0 < CPUProfileByteTarget opt ∧
                     CPUProfileByteTarget opt ≤ len (concat src))
     then 1%nat else 0%nat).
Proof.
  intros Hcpu Hh src Hsrc Ht. cbn zeta.
  unfold addCPUProfile, addTimeBasedProfile, plain_start, plain_stop,
    pprof_StartCPUProfile.
  rewrite Hcpu. cbn [NewZipCollector writeFileHeader Collector.opt emit history].
  rewrite Hh. cbn [emit history]. rewrite <- app_assoc. cbn [app]. fold src.
  set (w1 := emit (EvHeader name None) _).
  assert (∃ d, (if bool_decide (0 < CPUProfileByteTarget opt)
     then io_Copy limitTriggerWriter.Write
            (limitTriggerWriter.mk (zip_entry env) (Some cancel) (CPUProfileByteTarget opt))
            src w1
     else io_Copy (plain_Write (zip_entry env)) tt src w1) = (grow w1 d, None) ∧
     written d = concat src ∧
     cancels d = (if bool_decide (0 < CPUProfileByteTarget opt ∧
                     CPUProfileByteTarget opt ≤ len (concat src))
                  then 1%nat else 0%nat)) as (d & -> & Hw & Hc).
  { case_bool_decide as Hpos.
    - destruct (io_Copy_limit_accepting src (Some cancel) (CPUProfileByteTarget opt) w1)
        as (d & Hd & Hw & Hc); [done|left; split; [done|lia]|].
      exists d. split_and!; [done..|]. rewrite Hc. do 2 case_bool_decide; tauto.
    - destruct (io_Copy_plain_accepting src w1) as (d & Hd & Hw & Hc).
      exists d. split_and!; [done..|]. rewrite Hc, bool_decide_eq_false_2; [done|tauto]. }
  unfold pprof_StopCPUProfile. subst w1. cbn [fst snd grow emit history cpuOn traceOn].
  unfold since. cbn [emit history]. rewrite <- !app_assoc, drop_app_length.
  cbn [app written cancels]. rewrite written_app, cancels_app, Hw, Hc.
  cbn. by rewrite app_nil_r, Nat.add_0_r.
Qed.

End pump_facts.

(** X12. When the zip writer takes every write, a CPU capture that starts
    puts into its entry all that the profiler sent through the pipe, in
    order, with or without a byte target: reaching the target never cuts
    the data. [cancel] is called once if the target is positive and the
    data reach it, and not at all otherwise. *)
Theorem addCPUProfile_copies_all_and_cancels_once
    (env : Env) (meta : ArchiveMeta) (opt : ArchiveOptions) (name : string) (w : World) :
  (∀ h p, zip_Write env h p = (len p, None)) →
  cpuOn w = false →
  zip_CreateHeader env (history w ++ [EvStart CPU None]) name = None →
  Forall (λ p, len p ≤ MaxInt64)
    (pipe_Read env (history w ++ [EvStart CPU None; EvHeader name None])) →
  CPUProfileByteTarget opt ≤ MaxInt64 →
  let src := pipe_Read env (history w ++ [EvStart CPU None; EvHeader name None]) in
  let r := Collector.addCPUProfile env name (Collector.NewZipCollector env meta opt) w in
  written (since w r.1) = concat src ∧
  cancels (since w r.1) =
    (if bool_decide (0 < CPUProfileByteTarget opt ∧
                     CPUProfileByteTarget opt ≤ len (concat src))
     then 1%nat else 0%nat).
Proof.
  intros Hok Hcpu Hh Hsrc Ht. by apply addCPUProfile_accepting.
Qed.

Lemma addCPUProfile_copies_all_and_cancels_once_witness :
  written (since idle
    (Collector.addCPUProfile ok_env "pprof/profile"
       (Collector.NewZipCollector ok_env sample_meta
          (mkArchiveOptions 1000000000 4 0 0 ∅)) idle).1) =
  String.list_byte_of_string "abcde" ∧
  cancels (since idle
    (Collector.addCPUProfile ok_env "pprof/profile"
       (Collector.NewZipCollector ok_env sample_meta
          (mkArchiveOptions 1000000000 4 0 0 ∅)) idle).1) = 1%nat.
Proof.
  refine (addCPUProfile_copies_all_and_cancels_once ok_env sample_meta
    (mkArchiveOptions 1000000000 4 0 0 ∅) "pprof/profile" idle _ _ _ _ _).
  - intros h p. reflexivity.
  - reflexivity.
  - reflexivity.
  - repeat constructor; vm_compute; discriminate.
  - vm_compute. discriminate.
Defined.

(** ** The periodic scheduler: the loop *)

Section scheduler_facts.

Local Abbreviation next := runner.nextExecTrace.
Local Abbreviation D := defaultProfileInterval.

Lemma delay_spec i r :
  ∃ d r', runner.delay i r = Some (d, r') ∧ next r' = next r ∧
          0 < d ≤ D ∧ (0 < i → 4 * D < 5 * d).
Proof.
  unfold runner.delay. set (m := if bool_decide (0 < i) then _ else _).
  assert (0 < m ≤ D ∧ (0 < i → 5 * m ≤ D)) as (Hm & Hi).
  { subst m. case_bool_decide.
    - change (D `quot` 5) with 24000000000. change D with 120000000000. lia.
    - change D with 120000000000. lia. }
  destruct (Int63n_range m (runner.rng r)) as (x & g & -> & Hx); [lia|].
  cbn. eexists _, _. split_and!; [done|done|lia|lia|]. intros H. specialize (Hi H). lia.
Qed.

Lemma options_spec i r :
  i + 100 ≤ MaxInt64 → - 2 ^ 63 ≤ i →
  ∃ o r', runner.options i r = Some (o, r') ∧
    CPUProfileDuration o = (if bool_decide (i = 0) then 0 else 5 * Second) ∧
    ExecutionTraceDuration o =
      (if bool_decide (next r = i ∧ i ≠ 0) then Second else 0) ∧
    (if bool_decide (next r = i) then i + 1 ≤ next r' ≤ i + 100 else next r' = next r).
Proof.
  intros Hi Hl. unfold runner.options.
  destruct (Int63n_range 100 (runner.rng r)) as (x & g & Hx & Hr); [lia|].
  unfold Intn. rewrite Hx.
  destruct (decide (next r = i)) as [Hn|Hn], (decide (i = 0)) as [Hz|Hz].
  - rewrite !(bool_decide_eq_true_2 (next r = i)), (bool_decide_eq_true_2 (i = 0)),
      (bool_decide_eq_false_2 (_ ∧ _)) by tauto.
    cbn. rewrite wrap64_small by (unfold MaxInt64 in *; lia).
    eexists _, _. split_and!; [done|done|done|cbn; lia|cbn; lia].
  - rewrite !(bool_decide_eq_true_2 (next r = i)), (bool_decide_eq_false_2 (i = 0)),
      (bool_decide_eq_true_2 (_ ∧ _)) by tauto.
    cbn. rewrite wrap64_small by (unfold MaxInt64 in *; lia).
    eexists _, _. split_and!; [done|done| |cbn; lia|cbn; lia]. cbn. unfold Second. lia.
  - rewrite !(bool_decide_eq_false_2 (next r = i)), (bool_decide_eq_true_2 (i = 0)),
      (bool_decide_eq_false_2 (_ ∧ _)) by tauto.
    cbn. eexists _, _. done.
  - rewrite !(bool_decide_eq_false_2 (next r = i)), (bool_decide_eq_false_2 (i = 0)),
      (bool_decide_eq_false_2 (_ ∧ _)) by tauto.
    cbn. eexists _, _. done.
Qed.

(** The loop from an iteration after the first, with the next trace due
    within a hundred iterations. *)
Lemma iterations_from n i r :
  1 ≤ i → i ≤ next r ≤ i + 99 → i + Z.of_nat n + 100 ≤ MaxInt64 →
  ∃ l r', iterations n i r = Some (l, r') ∧ length l = n ∧
    Forall (λ x, 4 * D < 5 * x.1 ∧ x.1 ≤ D ∧ CPUProfileDuration x.2 = 5 * Second ∧
                 (ExecutionTraceDuration x.2 = 0 ∨ ExecutionTraceDuration x.2 = Second)) l ∧
    ((Z.to_nat (next r - i) < n)%nat →
     ∃ x, l !! Z.to_nat (next r - i) = Some x ∧ ExecutionTraceDuration x.2 = Second) ∧
    (∀ j, (j + 100 ≤ n)%nat →
     ∃ k x, (j ≤ k < j + 100)%nat ∧ l !! k = Some x ∧
            ExecutionTraceDuration x.2 = Second).
Proof.
  revert i r. induction n as [|n IH]; intros i r Hi Hn Hmax.
  { exists [], r. split_and!; [done|done|done|lia|lia]. }
  cbn [iterations].
  destruct (delay_spec i r) as (d & r1 & -> & Hn1 & Hd & Hd').
  destruct (options_spec i r1) as (o & r2 & Ho & Hcpu & Htr & Hn2);
    [lia|unfold MaxInt64 in *; lia|].
  cbn. rewrite Ho. cbn. rewrite wrap64_small by (unfold MaxInt64 in *; lia).
  rewrite Hn1 in Htr, Hn2.
  rewrite bool_decide_eq_false_2 in Hcpu by lia.
  assert (i + 1 ≤ next r2 ≤ i + 1 + 99) as Hinv by (case_bool_decide; lia).
  destruct (IH (i + 1) r2) as (l & r' & -> & Hlen & Hall & Hdue & Hwin); [lia..|].
  cbn. eexists _, _. split; [done|].
  assert ((Z.to_nat (next r - i) < S n)%nat →
     ∃ x, ((d, o) :: l) !! Z.to_nat (next r - i) = Some x ∧
          ExecutionTraceDuration x.2 = Second) as Hdue'.
  { intros Hlt. destruct (decide (next r = i)) as [Heq|Hne].
    - rewrite Heq, Z.sub_diag. exists (d, o). split; [done|]. cbn.
      rewrite Htr, bool_decide_eq_true_2; [done|lia].
    - rewrite bool_decide_eq_false_2 in Hn2 by done.
      replace (Z.to_nat (next r - i)) with (S (Z.to_nat (next r2 - (i + 1)))) in * by lia.
      cbn. apply Hdue. lia. }
  split_and!.
  - cbn. by rewrite Hlen.
  - constructor; [|done]. cbn. split_and!; [by apply Hd'; lia|lia|done|].
    rewrite Htr. destruct (bool_decide (next r = i ∧ i ≠ 0)); [by right|by left].
  - done.
  - intros [|j] Hj.
    + destruct Hdue' as (x & Hx & Hs); [lia|].
      exists (Z.to_nat (next r - i)), x. split_and!; [lia|lia|done|done].
    + destruct (Hwin j) as (k & x & Hk & Hx & Hs); [lia|].
      exists (S k), x. split_and!; [lia|lia|done|done].
Qed.

End scheduler_facts.

(** X13. The loop of the periodic collector never makes the generator
    panic. Its first iteration asks for no CPU profile and no trace; every
    later one asks for a CPU profile of five seconds and, at least once in
    any hundred consecutive iterations, for a trace of one second. The
    timer is set to a positive duration of at most two minutes, and after
    the first iteration to more than four fifths of that. *)
Theorem periodic_Run_traces_every_hundred (g : Rand) (n : nat) :
  Z.of_nat n + 101 ≤ MaxInt64 →
  ∃ l r', iterations n 0 (new_runner g) = Some (l, r') ∧ length l = n ∧
    (∀ k d o, l !! k = Some (d, o) →
       0 < d ≤ defaultProfileInterval ∧
       (k ≠ 0%nat → 4 * defaultProfileInterval < 5 * d) ∧
       CPUProfileDuration o = (if decide (k = 0%nat) then 0 else 5 * Second) ∧
       (k = 0%nat → ExecutionTraceDuration o = 0) ∧
       (ExecutionTraceDuration o = 0 ∨ ExecutionTraceDuration o = Second)) ∧
    (∀ j, (1 ≤ j)%nat → (j + 100 ≤ n)%nat →
       ∃ k d o, (j ≤ k < j + 100)%nat ∧ l !! k = Some (d, o) ∧
                ExecutionTraceDuration o = Second).
Proof.
  intros Hmax. destruct n as [|n].
  { exists [], (new_runner g). split_and!; [done|done|done|lia]. }
  cbn [iterations].
  destruct (delay_spec 0 (new_runner g)) as (d & r1 & -> & Hn1 & Hd & _).
  destruct (options_spec 0 r1) as (o & r2 & Ho & Hcpu & Htr & Hn2);
    [unfold MaxInt64; lia|lia|].
  cbn. rewrite Ho. cbn. rewrite wrap64_small by (unfold MaxInt64; lia).
  rewrite Hn1 in Htr, Hn2. cbn in Htr, Hn2, Hcpu. change (0 + 1) with 1.
  rewrite bool_decide_eq_true_2 in Hn2, Hcpu by done.
  rewrite bool_decide_eq_false_2 in Htr by lia.
  destruct (iterations_from n 1 r2) as (l & r' & -> & Hlen & Hall & _ & Hwin); [lia..|].
  cbn. eexists _, _. split; [done|]. split_and!.
  - cbn. by rewrite Hlen.
  - intros [|k] d' o' Hk.
    + injection Hk as <- <-. cbn. rewrite Htr, Hcpu.
      split_and!; [lia|lia|done|done|done|by left].
    + cbn in Hk. rewrite Forall_forall in Hall.
      destruct (Hall (d', o')) as (H1 & H2 & H3 & H4); [by eapply list_elem_of_lookup_2|].
      cbn in *. pose proof (eq_refl : defaultProfileInterval = 120000000000).
      split_and!; [lia|lia|done|done|done|done].
  - intros [|j] Hj1 Hj; [lia|].
    destruct (Hwin j) as (k & [d' o'] & Hk & Hx & Hs); [lia|].
    exists (S k), d', o'. split_and!; [lia|lia|done|done].
Qed.

Lemma periodic_Run_traces_every_hundred_witness :
  ∃ l r', iterations 3 0 (new_runner (mkRand (λ n, Z.of_nat n) 0)) = Some (l, r') ∧
          length l = 3%nat.
Proof.
  destruct (periodic_Run_traces_every_hundred (mkRand (λ n, Z.of_nat n) 0) 3)
    as (l & r' & H & Hl & _).
  - vm_compute. discriminate.
  - by exists l, r'.
Defined.

(** ** Storage keys *)

Section s3Key_facts.

(** A string without a slash, followed by a slash, is determined by the
    whole. *)
Lemma app_slash_inj a a' b b' :
  has_slash a = false → has_slash a' = false →
  a +:+ "/" +:+ b = a' +:+ "/" +:+ b' → a = a' ∧ b = b'.
Proof.
  revert a'. induction a as [|c a IH]; intros [|c' a'] Ha Ha' H.
  - by injection H.
  - cbn in H, Ha'. injection H as <- _. done.
  - cbn in H, Ha. injection H as -> _. done.
  - cbn in H, Ha, Ha'. injection H as -> H.
    destruct (Ascii.eqb c' "/"); [done|].
    destruct (IH a' Ha Ha' H) as [-> ->]. done.
Qed.

Lemma upperhex_digit (c : ascii) :
  Ascii.eqb (upperhex (N_of_ascii c / 16)) "/" = false ∧
  Ascii.eqb (upperhex (N_of_ascii c `mod` 16)) "/" = false.
Proof. destruct c as [[] [] [] [] [] [] [] []]; by vm_compute. Qed.

Lemma shouldEscape_kept (c : ascii) :
  shouldEscape c = false → Ascii.eqb c "/" = false ∧ Ascii.eqb c "%" = false.
Proof. destruct c as [[] [] [] [] [] [] [] []]; by vm_compute. Qed.

Lemma PathEscape_no_slash s : has_slash (PathEscape s) = false.
Proof.
  induction s as [|c s IH]; [done|]. cbn [PathEscape].
  destruct (shouldEscape c) eqn:Hc.
  - destruct (upperhex_digit c) as [H1 H2]. cbn [has_slash]. by rewrite H1, H2.
  - destruct (shouldEscape_kept c Hc) as [H1 _]. cbn [has_slash]. by rewrite H1.
Qed.

Lemma upperhex_inj (c c' : ascii) :
  upperhex (N_of_ascii c / 16) = upperhex (N_of_ascii c' / 16) →
  upperhex (N_of_ascii c `mod` 16) = upperhex (N_of_ascii c' `mod` 16) →
  c = c'.
Proof.
  assert (∀ n m, (n < 16)%N → (m < 16)%N → upperhex n = upperhex m → n = m) as Hinj.
  { intros n m Hn Hm.
    assert (∀ k, (k < 16)%N → k ∈ N.of_nat <$> seq 0 16) as Hk.
    { intros k Hlt. apply list_elem_of_fmap. exists (N.to_nat k).
      split; [lia|]. apply elem_of_seq. lia. }
    pose proof (Hk n Hn) as Hn'. pose proof (Hk m Hm) as Hm'. cbn in Hn', Hm'.
    set_unfold. destruct_or!; subst; vm_compute; congruence. }
  intros H1 H2.
  pose proof (N_ascii_bounded c) as Hb. pose proof (N_ascii_bounded c') as Hb'.
  apply Hinj in H1; [|apply N.Div0.div_lt_upper_bound; lia..].
  apply Hinj in H2; [|apply N.mod_lt; lia..].
  rewrite <- (ascii_N_embedding c), <- (ascii_N_embedding c'). f_equal.
  rewrite (N.div_mod (N_of_ascii c) 16), (N.div_mod (N_of_ascii c') 16) by lia.
  by rewrite H1, H2.
Qed.

Lemma PathEscape_inj a b : PathEscape a = PathEscape b → a = b.
Proof.
  revert b. induction a as [|c a IH]; intros [|c' b] H.
  - done.
  - cbn in H. by destruct (shouldEscape c').
  - cbn in H. by destruct (shouldEscape c).
  - cbn [PathEscape] in H.
    destruct (shouldEscape c) eqn:Hc, (shouldEscape c') eqn:Hc'.
    + injection H as H1 H2 H. rewrite (upperhex_inj c c') by done.
      f_equal. by apply IH.
    + injection H as <- _. apply shouldEscape_kept in Hc'. by destruct Hc'.
    + injection H as -> _. apply shouldEscape_kept in Hc. by destruct Hc.
    + injection H as -> H. f_equal. by apply IH.
Qed.

End s3Key_facts.

(** X14. When the path escape is one-to-one and yields no slash, as
    [url.PathEscape] is and does, [s3Key] gives two bundles the same key
    only if they agree on the main package, the host name, the process id
    and the capture time. *)
Theorem s3Key_injective (env : Env) (m1 m2 : ArchiveMeta) :
  (∀ a b, url_PathEscape env a = url_PathEscape env b → a = b) →
  (∀ a, has_slash (url_PathEscape env a) = false) →
  s3Key env m1 = s3Key env m2 →
  Main m1 = Main m2 ∧ Hostname m1 = Hostname m2 ∧
  ProcID m1 = ProcID m2 ∧ CaptureTime m1 = CaptureTime m2.
Proof.
  intros Hinj Hns H. unfold s3Key in H.
  apply (String.app_inj "pprof/") in H.
  apply app_slash_inj in H as [H1 H]; [|done..].
  apply app_slash_inj in H as [H2 H]; [|done..].
  apply app_slash_inj in H as [H3 H4]; [|done..].
  split_and!; by apply Hinj.
Qed.

Lemma s3Key_injective_witness :
  Main sample_meta = Main sample_meta ∧ Hostname sample_meta = Hostname sample_meta ∧
  ProcID sample_meta = ProcID sample_meta ∧ CaptureTime sample_meta = CaptureTime sample_meta.
Proof.
  refine (s3Key_injective ok_env sample_meta sample_meta _ _ _).
  - exact PathEscape_inj.
  - exact PathEscape_no_slash.
  - reflexivity.
Defined.

(** ** A trace refused under a fresh CPU profile *)

(** X15. When a CPU profile is configured, the CPU profiler is off and the
    tracer is already on, [addExecutionTrace] starts the CPU profiler, is
    refused by the tracer, and never stops the profiler: no entry is made
    for the trace, the entry of the profile is opened and left empty, and
    the result is that of opening it, nil if it was opened. *)
Theorem addExecutionTrace_refused_leaves_the_profiler_on
    (env : Env) (meta : ArchiveMeta) (opt : ArchiveOptions)
    (name profileName : string) (w : World) :
  0 < CPUProfileDuration opt → cpuOn w = false → traceOn w = true →
  let r := Collector.addExecutionTrace env name profileName
             (Collector.NewZipCollector env meta opt) w in
  let refused := EvStart Trace (Some "tracing is already enabled"%string) in
  let hdr := zip_CreateHeader env (history w ++ [EvStart CPU None; refused]) profileName in
  cpuOn r.1 = true ∧ traceOn r.1 = true ∧
  since w r.1 = [EvStart CPU None; refused; EvHeader profileName hdr] ∧
  r.2 = hdr.
Proof.
  intros Hcpd Hcpu Htr. cbn zeta.
  change (Collector.NewZipCollector env meta opt) with (Collector.zipped env meta opt None).
  unfold Collector.addExecutionTrace, Collector.addExecutionTrace_capture.
  change (Collector.opt (Collector.zipped env meta opt None)) with opt.
  rewrite bool_decide_eq_true_2 by done.
  pose proof (addTimeBasedProfile_zip env meta opt name (ExecutionTraceByteTarget opt)
    Collector.addExecutionTrace_start (Collector.addExecutionTrace_stop env)
    None None w) as H.
  cbn zeta in H. set (r := Collector.addTimeBasedProfile _ _ _ _ _ _ _ _) in *.
  unfold Collector.addExecutionTrace_start, pprof_StartCPUProfile, trace_Start in H.
  rewrite Hcpu in H. cbn [fst snd emit history cpuOn traceOn] in H.
  rewrite Htr in H. cbn [fst snd emit history cpuOn traceOn] in H.
  rewrite H. hist.
  destruct (zip_CreateHeader env _ profileName) as [x|] eqn:Hh; hist.
  - unfold since. cbn [emit history]. by rewrite <- !app_assoc, drop_app_length.
  - unfold io_Copy_Buffer. rewrite bool_decide_eq_false_2
      by (unfold len; cbn [length]; lia).
    hist. unfold since. cbn [emit history]. by rewrite <- !app_assoc, drop_app_length.
Qed.

Lemma addExecutionTrace_refused_leaves_the_profiler_on_witness :
  cpuOn (Collector.addExecutionTrace ok_env "pprof/trace" "pprof/profile-during-trace"
           (Collector.NewZipCollector ok_env sample_meta both_opt)
           (mkWorld [] false true)).1 = true.
Proof.
  refine (proj1 (addExecutionTrace_refused_leaves_the_profiler_on ok_env sample_meta
    both_opt "pprof/trace" "pprof/profile-during-trace" (mkWorld [] false true) _ _ _)).
  - reflexivity.
  - reflexivity.
  - reflexivity.
Defined.
